(** * Social-75: the backend's cache-and-refresh pipeline and the auth reducer

    A shallow embedding of [backend/server.js] (fetchers, HTTP handlers) and
    of [src/redux/authSlice.js] (the [loginSuccess] reducer), with the
    properties of the specification stated and proved about them.

    JavaScript values are a small inductive type, MongoDB collections are
    lists of documents kept in a finite map from collection names (a
    document is held as the driver writes it: a property that is
    [undefined] in memory is [null] in the collection), and the
    handlers run in a state-and-exception monad over a [World] that records
    the database, the trace of external effects and a tick counter.  What
    the program obtains from outside (upstream HTTP answers, the wall clock,
    storage faults, the text matcher of the database) is read from an
    environment [Env] of oracles.  A handler or fetcher is run to
    completion on the world it is given: the interleaving of concurrent
    requests at their [await] points is not part of the model.

    The development goes on to the routes the specification's properties
    do not reach (the list routes, the table of all routes), to the store
    around the reducers with the auth listener of [src/main.jsx], and to
    the response interceptors of [src/utils/api.js], and proves further
    properties of them: the effects each route may have, the order and
    bounds of listings, what a client sees of an answer, and invariants
    of the auth store. *)

From Stdlib Require Import ZArith String Ascii List Lia DecimalString DecimalNat Sorted.
From stdpp Require Import gmap strings list.

Set Warnings "-register-all".

Local Open Scope string_scope.
Local Open Scope Z_scope.

(** * The program *)

(** ** JavaScript values *)

(** Numbers are the integer-valued ones (what the handlers slice and limit
    with); [JDate] is a [Date] object carrying its epoch time, [JObjectId]
    the storage key the database driver generates. *)
Inductive JSValue : Type :=
| JUndefined
| JNull
| JBool (b : bool)
| JNum (n : Z)
| JStr (s : string)
| JArr (items : list JSValue)
| JObj (props : list (string * JSValue))
| JDate (t : Z)
| JObjectId (n : nat).

(** Exceptions a handler can observe. *)
Inductive Exn : Type :=
| TypeError
| AxiosError
| MongoError.

Inductive Outcome (A : Type) : Type :=
| Ret (a : A)
| Throw (e : Exn).
Arguments Ret {A} a.
Arguments Throw {A} e.

#[global] Instance outcome_ret : MRet Outcome := fun A a => Ret a.

#[global] Instance outcome_bind : MBind Outcome := fun A B f o =>
  match o with
  | Ret a => f a
  | Throw e => Throw e
  end.

(** ToBoolean: [undefined], [null], [false], [0] and [''] are falsy. *)
Definition truthy (v : JSValue) : bool :=
  match v with
  | JUndefined | JNull => false
  | JBool b => b
  | JNum n => negb (n =? 0)
  | JStr s => negb (String.eqb s "")
  | JArr _ | JObj _ | JDate _ | JObjectId _ => true
  end.

(** [a || b] *)
Definition js_or (a b : JSValue) : JSValue := if truthy a then a else b.

Fixpoint lookup_prop (k : string) (ps : list (string * JSValue)) : JSValue :=
  match ps with
  | [] => JUndefined
  | (k', v) :: r => if String.eqb k k' then v else lookup_prop k r
  end.

(** Property read [v.k] for the data property names the program reads
    (none of them is inherited from a prototype): reading from [undefined]
    or [null] throws, an object gives its own property or [undefined], any
    other value gives [undefined]. *)
Definition js_get (v : JSValue) (k : string) : Outcome JSValue :=
  match v with
  | JUndefined | JNull => Throw TypeError
  | JObj ps => Ret (lookup_prop k ps)
  | _ => Ret JUndefined
  end.

(** Total read used on values already known to be objects (documents). *)
Definition prop (v : JSValue) (k : string) : JSValue :=
  match v with
  | JObj ps => lookup_prop k ps
  | _ => JUndefined
  end.

(** [doc.k = x] on a document: overwrite in place or append. *)
Fixpoint set_prop (k : string) (x : JSValue) (ps : list (string * JSValue))
  : list (string * JSValue) :=
  match ps with
  | [] => [(k, x)]
  | (k', v) :: r => if String.eqb k k' then (k, x) :: r else (k', v) :: set_prop k x r
  end.

Definition js_set (v : JSValue) (k : string) (x : JSValue) : JSValue :=
  match v with
  | JObj ps => JObj (set_prop k x ps)
  | _ => v
  end.

(** ** Reading numbers out of query strings *)

(** White space, within ASCII: tab, line feed, vertical tab, form feed,
    carriage return and space. *)
Definition is_ws (a : ascii) : bool :=
  let n := nat_of_ascii a in
  (((9 <=? n) && (n <=? 13)) || (n =? 32))%nat.

Fixpoint skip_ws (s : list ascii) : list ascii :=
  match s with
  | a :: r => if is_ws a then skip_ws r else s
  | [] => []
  end.

Definition trim_ws (s : list ascii) : list ascii :=
  rev (skip_ws (rev (skip_ws s))).

(** Value of a character as a digit in the given radix. *)
Definition digit_val (radix : nat) (a : ascii) : option nat :=
  let n := nat_of_ascii a in
  let d :=
    if ((48 <=? n) && (n <=? 57))%nat then Some (n - 48)%nat
    else if ((97 <=? n) && (n <=? 122))%nat then Some (n - 87)%nat
    else if ((65 <=? n) && (n <=? 90))%nat then Some (n - 55)%nat
    else None in
  match d with
  | Some v => if (v <? radix)%nat then Some v else None
  | None => None
  end.

(** Longest prefix of digits: the digits read (most significant first) and
    the rest of the input. *)
Fixpoint take_digits (radix : nat) (s : list ascii) : list nat * list ascii :=
  match s with
  | [] => ([], [])
  | a :: r =>
      match digit_val radix a with
      | Some d => let '(ds, rest) := take_digits radix r in (d :: ds, rest)
      | None => ([], s)
      end
  end.

Definition digits_value (radix : nat) (ds : list nat) : nat :=
  fold_left (fun acc d => (acc * radix + d)%nat) ds 0%nat.

Definition take_sign (s : list ascii) : bool * list ascii :=
  match s with
  | "-"%char :: r => (true, r)
  | "+"%char :: r => (false, r)
  | _ => (false, s)
  end.

Definition signed (neg : bool) (n : Z) : Z := if neg then - n else n.

(** [parseInt(s)] with no radix argument; [None] is [NaN]. *)
Definition parseInt (s : string) : option Z :=
  let '(neg, s1) := take_sign (skip_ws (list_ascii_of_string s)) in
  let '(radix, s2) :=
    match s1 with
    | "0"%char :: "x"%char :: r | "0"%char :: "X"%char :: r => (16%nat, r)
    | _ => (10%nat, s1)
    end in
  match take_digits radix s2 with
  | ([], _) => None
  | (ds, _) => Some (signed neg (Z.of_nat (digits_value radix ds)))
  end.

(** Results of ToIntegerOrInfinity. *)
Inductive ExtInt : Type :=
| Fin (z : Z)
| PosInf
| NegInf.

Definition all_digits (radix : nat) (s : list ascii) : option nat :=
  match take_digits radix s with
  | (d :: ds, []) => Some (digits_value radix (d :: ds))
  | _ => None
  end.

(** Optional exponent part [e±ddd]; [None] when the text is not one. *)
Definition exponent_part (s : list ascii) : option Z :=
  match s with
  | [] => Some 0
  | c :: r =>
      if (Ascii.eqb c "e" || Ascii.eqb c "E")%bool then
        let '(neg, r1) := take_sign r in
        match all_digits 10 r1 with
        | Some n => Some (signed neg (Z.of_nat n))
        | None => None
        end
      else None
  end.

(** StrDecimalLiteral without its sign, truncated toward zero (exact
    arithmetic on the digits); [None] is [NaN]. *)
Definition decimal_literal (s : list ascii) : option Z :=
  let '(ip, r1) := take_digits 10 s in
  let '(fp, r2) :=
    match r1 with
    | "."%char :: r => take_digits 10 r
    | _ => ([], r1)
    end in
  match (ip ++ fp)%list with
  | [] => None
  | ds =>
      match exponent_part r2 with
      | None => None
      | Some e =>
          let mant := Z.of_nat (digits_value 10 ds) in
          let sc := e - Z.of_nat (length fp) in
          Some (if 0 <=? sc then mant * 10 ^ sc else mant / 10 ^ (- sc))
      end
  end.

Definition prefixed_literal (s : list ascii) : option (nat * list ascii) :=
  match s with
  | "0"%char :: c :: r =>
      if (Ascii.eqb c "x" || Ascii.eqb c "X")%bool then Some (16%nat, r)
      else if (Ascii.eqb c "o" || Ascii.eqb c "O")%bool then Some (8%nat, r)
      else if (Ascii.eqb c "b" || Ascii.eqb c "B")%bool then Some (2%nat, r)
      else None
  | _ => None
  end.

(** ToIntegerOrInfinity(ToNumber(s)) for a string [s]: the empty string is
    0, [NaN] becomes 0.  Numbers are exact integers here as everywhere in
    the model: the value the literal denotes is truncated as written, which
    is what the runtime computes whenever that value is a double (every
    plain numeral of a safe integer is), and the white space trimmed is the
    ASCII white space of [is_ws]. *)
Definition string_to_integer (s : string) : ExtInt :=
  let t := trim_ws (list_ascii_of_string s) in
  match t with
  | [] => Fin 0
  | _ =>
      match prefixed_literal t with
      | Some (radix, r) =>
          match all_digits radix r with
          | Some n => Fin (Z.of_nat n)
          | None => Fin 0
          end
      | None =>
          let '(neg, u) := take_sign t in
          if String.eqb (string_of_list_ascii u) "Infinity"
          then (if neg then NegInf else PosInf)
          else match decimal_literal u with
               | Some z => Fin (signed neg z)
               | None => Fin 0
               end
      end
  end.

(** [arr.slice(0, end)] with [end] already converted. *)
Definition slice0 {A} (l : list A) (e : ExtInt) : list A :=
  let len := Z.of_nat (length l) in
  let final :=
    match e with
    | NegInf => 0
    | PosInf => len
    | Fin z => if z <? 0 then Z.max (len + z) 0 else Z.min z len
    end in
  firstn (Z.to_nat final) l.

(** The decimal numeral of a natural number, as a client writes [limit=2]. *)
Definition numeral (n : nat) : string := NilEmpty.string_of_uint (Nat.to_uint n).

(** ** The world a handler runs in *)

(** External effects, in the order they are attempted. *)
Inductive Event : Type :=
| EvHttpGet (url : string)
| EvFind (coll : string)
| EvDeleteMany (coll : string)
| EvInsertMany (coll : string) (docs : list JSValue)
| EvInsertOne (coll : string) (doc : JSValue)
| EvPublish (channel event : string) (payload : JSValue).

(** What the storage oracle is asked about: the operation, its collection,
    and the argument a driver may reject (a [NaN] limit, an empty batch). *)
Inductive StorageOp : Type :=
| OpFind (coll : string) (limit : option Z)
| OpDeleteMany (coll : string)
| OpInsertMany (coll : string) (batch : nat)
| OpInsertOne (coll : string).

Inductive AxiosResult : Type :=
| AxiosFail
| AxiosOk (data : JSValue).

(** The process environment and the oracles for everything outside the
    program, indexed by the tick at which they are consulted. *)
Record Env : Type := {
  NODE_ENV : option string;
  ADMIN_API_KEY : option string;
  axios_get : nat -> string -> AxiosResult;
  clock : nat -> Z;
  storage_ok : nat -> StorageOp -> bool;
  text_search : string -> string -> bool;
  insert_result_has_ops : bool;
  host_to_string : JSValue -> string;
  err_message : Exn -> string;
  err_stack : Exn -> string
}.

Record World : Type := {
  db : gmap string (list JSValue);
  log : list Event;
  ticks : nat;
  next_id : nat
}.

(** The documents of a collection; a collection never written is empty. *)
Definition coll (w : World) (c : string) : list JSValue := default [] (db w !! c).

Definition Eff (A : Type) : Type := World -> Outcome A * World.

#[global] Instance eff_ret : MRet Eff := fun A a w => (Ret a, w).

#[global] Instance eff_bind : MBind Eff := fun A B f m w =>
  match m w with
  | (Ret a, w1) => f a w1
  | (Throw e, w1) => (Throw e, w1)
  end.

Definition throw {A} (e : Exn) : Eff A := fun w => (Throw e, w).

Definition lift {A} (o : Outcome A) : Eff A := fun w => (o, w).

(** [try { body } catch (err) { handler }] *)
Definition try_catch {A} (body : Eff A) (handler : Exn -> Eff A) : Eff A := fun w =>
  match body w with
  | (Ret a, w1) => (Ret a, w1)
  | (Throw e, w1) => handler e w1
  end.

Definition tick (w : World) : World :=
  {| db := db w; log := log w; ticks := S (ticks w); next_id := next_id w |}.

Definition record (ev : Event) (w : World) : World :=
  {| db := db w; log := (log w ++ [ev])%list; ticks := S (ticks w); next_id := next_id w |}.

Definition put_coll (c : string) (docs : list JSValue) (w : World) : World :=
  {| db := <[c := docs]> (db w); log := log w; ticks := ticks w; next_id := next_id w |}.

(** [new Date()] *)
Definition new_Date (env : Env) : Eff JSValue := fun w =>
  (Ret (JDate (clock env (ticks w))), tick w).

Fixpoint map_eff {A B} (f : A -> Eff B) (l : list A) : Eff (list B) :=
  match l with
  | [] => mret []
  | x :: r => y ← f x; ys ← map_eff f r; mret (y :: ys)
  end.

(** [v.map(f)]: only an array has the method. *)
Definition js_array_map (v : JSValue) (f : JSValue -> Eff JSValue) : Eff (list JSValue) :=
  match v with
  | JArr items => map_eff f items
  | _ => throw TypeError
  end.

(** ** Storage gateway: the MongoDB collections *)

Record Query : Type := {
  q_text : option string;           (* { $text: { $search: s } } *)
  q_eq : list (string * string)     (* { field: value } *)
}.

Definition query_all : Query := {| q_text := None; q_eq := [] |}.

(** The text indexes created at start-up by [connectToMongoDB]. *)
Definition text_index (c : string) : option string :=
  if String.eqb c "tedTalks" then Some "title"
  else if String.eqb c "ngos" then Some "name"
  else None.

(** Equality filter on a field: the value itself, or an array holding it. *)
Definition field_matches (v : JSValue) (s : string) : bool :=
  match v with
  | JStr t => String.eqb t s
  | JArr items =>
      existsb (fun x => match x with JStr t => String.eqb t s | _ => false end) items
  | _ => false
  end.

Definition matches (env : Env) (c : string) (q : Query) (d : JSValue) : bool :=
  match q_text q with
  | None => true
  | Some s =>
      match text_index c with
      | Some f => match prop d f with JStr t => text_search env s t | _ => false end
      | None => false
      end
  end
  && forallb (fun '(k, s) => field_matches (prop d k) s) (q_eq q).

Definition created_key (d : JSValue) : option Z :=
  match prop d "createdAt" with
  | JDate t => Some t
  | _ => None
  end.

(** [a] sorts strictly before [b] under [{ createdAt: -1 }]; documents
    without a date come last. *)
Definition newer (a b : option Z) : bool :=
  match a, b with
  | Some x, Some y => y <? x
  | Some _, None => true
  | None, _ => false
  end.

Fixpoint insert_desc (d : JSValue) (l : list JSValue) : list JSValue :=
  match l with
  | [] => [d]
  | x :: r =>
      if newer (created_key x) (created_key d) then x :: insert_desc d r
      else d :: x :: r
  end.

(** [.sort({ createdAt: -1 })]; ties keep the stored order. *)
Definition sort_desc (l : list JSValue) : list JSValue := foldr insert_desc [] l.

(** [.limit(n)]: zero (and a [NaN] the driver lets through) is no limit, a
    negative limit counts as its absolute value. *)
Definition apply_limit (lim : option Z) (l : list JSValue) : list JSValue :=
  match lim with
  | None => l
  | Some n => if n =? 0 then l else firstn (Z.abs_nat n) l
  end.

(** [db.collection(c).find(q).limit(lim).sort({ createdAt: -1 }).toArray()] *)
Definition find (env : Env) (c : string) (q : Query) (lim : option Z)
  : Eff (list JSValue) := fun w =>
  let w1 := record (EvFind c) w in
  let indexed := match q_text q with Some _ => bool_decide (is_Some (text_index c)) | None => true end in
  if storage_ok env (ticks w) (OpFind c lim) && indexed
  then (Ret (apply_limit lim (sort_desc (filter (fun d => matches env c q d = true) (coll w c)))), w1)
  else (Throw MongoError, w1).

(** [db.collection(c).deleteMany({})] *)
Definition deleteMany (env : Env) (c : string) : Eff unit := fun w =>
  let w1 := record (EvDeleteMany c) w in
  if storage_ok env (ticks w) (OpDeleteMany c)
  then (Ret tt, put_coll c [] w1)
  else (Throw MongoError, w1).

(** The driver writes a fresh [_id] into each document it is given. *)
Fixpoint assign_ids (n : nat) (docs : list JSValue) : list JSValue :=
  match docs with
  | [] => []
  | d :: r => js_set d "_id" (JObjectId n) :: assign_ids (S n) r
  end.

Definition bump_ids (k : nat) (w : World) : World :=
  {| db := db w; log := log w; ticks := ticks w; next_id := (next_id w + k)%nat |}.

(** What the driver writes for the value of a property: it is created
    without [ignoreUndefined], so [undefined] is written as [null]. *)
Definition stored_value (v : JSValue) : JSValue :=
  match v with
  | JUndefined => JNull
  | _ => v
  end.

(** The document as the collection holds it, and as a later read returns
    it.  The values of the properties are parsed JSON (request bodies,
    upstream payloads) or built by the program (strings, dates, keys), so
    [undefined] occurs as the value of a property only. *)
Definition stored_form (d : JSValue) : JSValue :=
  match d with
  | JObj ps => JObj (map (fun p => (fst p, stored_value (snd p))) ps)
  | _ => d
  end.

(** [db.collection(c).insertMany(docs)]: returns the array it was given,
    whose documents now carry their [_id]; the collection receives their
    stored forms; a rejected batch stores nothing. *)
Definition insertMany (env : Env) (c : string) (docs : list JSValue)
  : Eff (list JSValue) := fun w =>
  let w1 := record (EvInsertMany c docs) w in
  if storage_ok env (ticks w) (OpInsertMany c (length docs))
  then let docs' := assign_ids (next_id w) docs in
       (Ret docs',
        bump_ids (length docs) (put_coll c (coll w c ++ map stored_form docs')%list w1))
  else (Throw MongoError, w1).

(** [db.collection(c).insertOne(doc)]: returns the document it was given,
    with its [_id]; the collection receives its stored form. *)
Definition insertOne (env : Env) (c : string) (doc : JSValue) : Eff JSValue := fun w =>
  let w1 := record (EvInsertOne c doc) w in
  if storage_ok env (ticks w) (OpInsertOne c)
  then let doc' := js_set doc "_id" (JObjectId (next_id w)) in
       (Ret doc', bump_ids 1 (put_coll c (coll w c ++ [stored_form doc'])%list w1))
  else (Throw MongoError, w1).

(** [axios.get(url, ...)] followed by [response.data]. *)
Definition axios_get_data (env : Env) (url : string) : Eff JSValue := fun w =>
  let w1 := record (EvHttpGet url) w in
  match axios_get env (ticks w) url with
  | AxiosOk data => (Ret data, w1)
  | AxiosFail => (Throw AxiosError, w1)
  end.

(** [pusher.trigger(channel, event, payload)]: fire and forget. *)
Definition pusher_trigger (channel event : string) (payload : JSValue) : Eff unit :=
  fun w => (Ret tt, record (EvPublish channel event payload) w).

(** ** External content fetchers *)

(** ToString, as a template literal applies it.  An integer below 1e21 in
    magnitude is written with all its digits; the exponent notation of a
    larger one, like the rendering of the host objects ([Date],
    [ObjectId]), is the runtime's. *)
Fixpoint to_string (env : Env) (v : JSValue) : string :=
  match v with
  | JUndefined => "undefined"
  | JNull => "null"
  | JBool b => if b then "true" else "false"
  | JNum n =>
      if Z.abs n <? 10 ^ 21 then NilZero.string_of_int (Z.to_int n) else host_to_string env v
  | JStr s => s
  | JArr items =>
      (fix join (l : list JSValue) : string :=
         match l with
         | [] => ""
         | x :: r =>
             let sx := match x with JUndefined | JNull => "" | _ => to_string env x end in
             match r with
             | [] => sx
             | _ => sx ++ "," ++ join r
             end
         end) items
  | JObj _ => "[object Object]"
  | JDate _ | JObjectId _ => host_to_string env v
  end.

Definition TED_URL : string := "https://ted-talks-api.p.rapidapi.com/talks".
Definition NGO_URL : string :=
  "https://projects.propublica.org/nonprofits/api/v2/search.json?q=environment".

(** The callback of [response.data.result.results.map(...)]. *)
Definition talk_record (env : Env) (talk : JSValue) : Eff JSValue :=
  id ← lift (js_get talk "id");
  title ← lift (js_get talk "title");
  speaker ← lift (js_get talk "speaker");
  description ← lift (js_get talk "description");
  duration ← lift (js_get talk "duration");
  url ← lift (js_get talk "url");
  thumbnail ← lift (js_get talk "thumbnail");
  createdAt ← new_Date env;
  mret (JObj [("id", id); ("title", title); ("speaker", speaker);
              ("description", description); ("duration", duration);
              ("url", url); ("thumbnail", thumbnail);
              ("type", JStr "Video"); ("createdAt", createdAt)]).

Definition fetchTEDTalks (env : Env) : Eff (list JSValue) :=
  try_catch
    (data ← axios_get_data env TED_URL;
     result ← lift (js_get data "result");
     results ← lift (js_get result "results");
     talks ← js_array_map results (talk_record env);
     _ ← deleteMany env "tedTalks";
     talks ← insertMany env "tedTalks" talks;
     mret talks)
    (fun err => throw err).

(** The callback of [response.data.organizations.map(...)]. *)
Definition ngo_record (env : Env) (org : JSValue) : Eff JSValue :=
  ein ← lift (js_get org "ein");
  name ← lift (js_get org "name");
  ntee_code ← lift (js_get org "ntee_code");
  website ← lift (js_get org "website");
  city ← lift (js_get org "city");
  state ← lift (js_get org "state");
  ntee_classification ← lift (js_get org "ntee_classification");
  createdAt ← new_Date env;
  mret (JObj [("id", ein); ("name", name); ("type", JStr "NGO");
              ("description", js_or ntee_code (JStr "No description available"));
              ("website", js_or website (JStr "Not available"));
              ("location", JStr (to_string env city ++ ", " ++ to_string env state));
              ("mission", js_or ntee_classification (JStr "No mission statement"));
              ("createdAt", createdAt)]).

Definition refreshNGOData (env : Env) : Eff (list JSValue) :=
  try_catch
    (data ← axios_get_data env NGO_URL;
     organizations ← lift (js_get data "organizations");
     ngos ← js_array_map organizations (ngo_record env);
     _ ← deleteMany env "ngos";
     ngos ← insertMany env "ngos" ngos;
     mret ngos)
    (fun err => throw err).

(** ** HTTP API layer *)

(** A request as the middleware hands it to a route: query parameters and
    headers are strings by name, the body is what the JSON body parser left
    in [req.body]. *)
Record Request : Type := {
  query : gmap string string;
  body : JSValue;
  headers : gmap string string
}.

Record Response : Type := {
  status : nat;
  json : JSValue
}.

Definition respond (code : nat) (payload : JSValue) : Eff Response :=
  mret {| status := code; json := payload |}.

Definition error_body (msg : string) : JSValue := JObj [("error", JStr msg)].

(** [const { limit = d } = req.query]: the text the client sent, or the
    numeric default. *)
Inductive QueryLimit : Type :=
| LimDefault (n : Z)
| LimText (s : string).

Definition query_limit (req : Request) (d : Z) : QueryLimit :=
  match query req !! "limit" with
  | Some s => LimText s
  | None => LimDefault d
  end.

(** [parseInt(limit)] *)
Definition parseInt_limit (l : QueryLimit) : option Z :=
  match l with
  | LimDefault n => Some n
  | LimText s => parseInt s
  end.

(** ToIntegerOrInfinity(limit), the conversion [slice] applies to its end. *)
Definition slice_end (l : QueryLimit) : ExtInt :=
  match l with
  | LimDefault n => Fin n
  | LimText s => string_to_integer s
  end.

(** A query parameter used as a condition: absent and empty are falsy. *)
Definition truthy_param (p : option string) : option string :=
  match p with
  | Some s => if String.eqb s "" then None else Some s
  | None => None
  end.

(** [search ? { $text: { $search: search } } : {}] *)
Definition content_query (req : Request) : Query :=
  {| q_text := truthy_param (query req !! "search"); q_eq := [] |}.

(** [GET /api/content] *)
Definition get_api_content (env : Env) (req : Request) : Eff Response :=
  try_catch
    (let limit := query_limit req 20 in
     let q := content_query req in
     talks ← find env "tedTalks" q (parseInt_limit limit);
     if (length talks =? 0)%nat then
       freshTalks ← fetchTEDTalks env;
       respond 200 (JArr (slice0 freshTalks (slice_end limit)))
     else respond 200 (JArr talks))
    (fun err => respond 500 (error_body "Failed to fetch content")).

(** [GET /api/content], second revision of the file: the same route, with
    the error's message added to the 500 body. *)
Definition get_api_content_rev2 (env : Env) (req : Request) : Eff Response :=
  try_catch
    (let limit := query_limit req 20 in
     let q := content_query req in
     talks ← find env "tedTalks" q (parseInt_limit limit);
     if (length talks =? 0)%nat then
       freshTalks ← fetchTEDTalks env;
       respond 200 (JArr (slice0 freshTalks (slice_end limit)))
     else respond 200 (JArr talks))
    (fun err =>
       respond 500 (JObj [("error", JStr "Failed to fetch content");
                          ("message", JStr (err_message env err))])).

(** [if (search) query.$text = { $search: search }; if (type) query.type = type] *)
Definition action_hub_query (req : Request) : Query :=
  {| q_text := truthy_param (query req !! "search");
     q_eq := match truthy_param (query req !! "type") with
             | Some t => [("type", t)]
             | None => []
             end |}.

(** [GET /api/action-hub] *)
Definition get_api_action_hub (env : Env) (req : Request) : Eff Response :=
  try_catch
    (let limit := query_limit req 50 in
     let q := action_hub_query req in
     ngos ← find env "ngos" q (parseInt_limit limit);
     if (length ngos =? 0)%nat then
       freshNGOs ← refreshNGOData env;
       respond 200 (JArr (slice0 freshNGOs (slice_end limit)))
     else respond 200 (JArr ngos))
    (fun err => respond 500 (error_body "Failed to fetch NGOs")).

(** A destructuring default: used only when the property is [undefined]. *)
Definition default_to (d v : JSValue) : JSValue :=
  match v with
  | JUndefined => d
  | _ => v
  end.

(** [result.ops[0]]: the stored document where the driver's insert result
    has an [ops] array, a TypeError where it has none. *)
Definition result_ops_0 (env : Env) (stored : JSValue) : Eff JSValue :=
  if insert_result_has_ops env then mret stored else throw TypeError.

(** [POST /api/map] *)
Definition post_api_map (env : Env) (req : Request) : Eff Response :=
  try_catch
    (location ← lift (js_get (body req) "location");
     interest ← lift (js_get (body req) "interest");
     category ← lift (js_get (body req) "category");
     let category := default_to (JStr "general") category in
     userId ← lift (js_get (body req) "userId");
     if negb (truthy location) || negb (truthy interest) then
       respond 400 (error_body "Missing required fields")
     else
       createdAt ← new_Date env;
       stored ← insertOne env "mapData"
                  (JObj [("location", location); ("interest", interest);
                         ("category", category); ("userId", userId);
                         ("createdAt", createdAt)]);
       saved ← result_ops_0 env stored;
       respond 201 saved)
    (fun err => respond 500 (error_body "Failed to save location")).

(** [POST /api/send-message], first revision of the file. *)
Definition post_api_send_message (env : Env) (req : Request) : Eff Response :=
  try_catch
    (text ← lift (js_get (body req) "text");
     user ← lift (js_get (body req) "user");
     photoURL ← lift (js_get (body req) "photoURL");
     if negb (truthy text) || negb (truthy user) then
       respond 400 (error_body "Missing required fields")
     else
       createdAt ← new_Date env;
       stored ← insertOne env "messages"
                  (JObj [("text", text); ("user", user);
                         ("photoURL", js_or photoURL (JStr ""));
                         ("createdAt", createdAt)]);
       savedMessage ← result_ops_0 env stored;
       _ ← pusher_trigger "chat" "message" savedMessage;
       respond 201 savedMessage)
    (fun err => respond 500 (error_body "Failed to send message")).

(** [POST /api/send-message], second revision: the saved message is rebuilt
    from [result.insertedId], and the error bodies carry diagnostics. *)
Definition post_api_send_message_rev2 (env : Env) (req : Request) : Eff Response :=
  try_catch
    (text ← lift (js_get (body req) "text");
     user ← lift (js_get (body req) "user");
     photoURL ← lift (js_get (body req) "photoURL");
     if negb (truthy text) || negb (truthy user) then
       respond 400 (JObj [("error", JStr "Missing required fields");
                          ("required", JArr [JStr "text"; JStr "user"]);
                          ("received", body req)])
     else
       createdAt ← new_Date env;
       stored ← insertOne env "messages"
                  (JObj [("text", text); ("user", user);
                         ("photoURL", js_or photoURL (JStr ""));
                         ("createdAt", createdAt)]);
       let savedMessage := js_set stored "_id" (prop stored "_id") in
       _ ← pusher_trigger "chat" "message" savedMessage;
       respond 201 savedMessage)
    (fun err =>
       respond 500 (JObj [("error", JStr "Failed to send message");
                          ("details", JStr (err_message env err));
                          ("stack", if bool_decide (NODE_ENV env = Some "development")
                                    then JStr (err_stack env err) else JUndefined)])).

(** The gate of the refresh routes:
    [NODE_ENV === 'production' && req.headers['x-api-key'] !== ADMIN_API_KEY]. *)
Definition refresh_denied (env : Env) (req : Request) : bool :=
  bool_decide (NODE_ENV env = Some "production")
  && negb (bool_decide (headers req !! "x-api-key" = ADMIN_API_KEY env)).

Definition refresh_body (n : nat) : JSValue :=
  JObj [("success", JBool true); ("count", JNum (Z.of_nat n))].

(** [POST /api/refresh/ted-talks] *)
Definition post_api_refresh_ted_talks (env : Env) (req : Request) : Eff Response :=
  try_catch
    (if refresh_denied env req then respond 403 (error_body "Unauthorized")
     else
       talks ← fetchTEDTalks env;
       respond 200 (refresh_body (length talks)))
    (fun err => respond 500 (error_body "Failed to refresh TED Talks")).

(** [POST /api/refresh/ngos] *)
Definition post_api_refresh_ngos (env : Env) (req : Request) : Eff Response :=
  try_catch
    (if refresh_denied env req then respond 403 (error_body "Unauthorized")
     else
       ngos ← refreshNGOData env;
       respond 200 (refresh_body (length ngos)))
    (fun err => respond 500 (error_body "Failed to refresh NGOs")).

(** ** The auth slice of the Redux store *)

Module authSlice.

Record AuthState : Type := {
  user : JSValue;
  loading : bool;
  error : JSValue
}.

Definition initialState : AuthState :=
  {| user := JNull; loading := false; error := JNull |}.

Definition loginStart (state : AuthState) : AuthState :=
  {| user := user state; loading := true; error := JNull |}.

(** The reducer reads the five properties of the payload before it
    assigns anything; a throw leaves no new state. *)
Definition loginSuccess (state : AuthState) (payload : JSValue) : Outcome AuthState :=
  uid ← js_get payload "uid";
  email ← js_get payload "email";
  displayName ← js_get payload "displayName";
  photoURL ← js_get payload "photoURL";
  emailVerified ← js_get payload "emailVerified";
  mret {| user := JObj [("uid", uid); ("email", email);
                        ("displayName", js_or displayName (JStr ""));
                        ("photoURL", js_or photoURL (JStr ""));
                        ("emailVerified", js_or emailVerified (JBool false))];
          loading := false;
          error := JNull |}.

Definition loginFailure (state : AuthState) (payload : JSValue) : AuthState :=
  {| user := user state; loading := false; error := payload |}.

Definition logout (state : AuthState) : AuthState :=
  {| user := JNull; loading := false; error := JNull |}.

Definition setUser (state : AuthState) (payload : JSValue) : AuthState :=
  {| user := payload; loading := loading state; error := error state |}.

End authSlice.

(** ** The list routes *)

(** [category ? { category } : {}] *)
Definition map_query (req : Request) : Query :=
  {| q_text := None;
     q_eq := match truthy_param (query req !! "category") with
             | Some c => [("category", c)]
             | None => []
             end |}.

(** [GET /api/map] *)
Definition get_api_map (env : Env) (req : Request) : Eff Response :=
  try_catch
    (let limit := query_limit req 100 in
     data ← find env "mapData" (map_query req) (parseInt_limit limit);
     respond 200 (JArr data))
    (fun err => respond 500 (error_body "Failed to fetch map data")).

(** [GET /api/messages] *)
Definition get_api_messages (env : Env) (req : Request) : Eff Response :=
  try_catch
    (let limit := query_limit req 50 in
     messages ← find env "messages" query_all (parseInt_limit limit);
     respond 200 (JArr messages))
    (fun err => respond 500 (error_body "Failed to fetch messages")).

(** The routes registered on [app] that reach the database (first
    revision of the file). *)
Inductive Route : Type :=
| GET_api_map
| POST_api_map
| GET_api_content
| GET_api_action_hub
| GET_api_messages
| POST_api_send_message
| POST_api_refresh_ted_talks
| POST_api_refresh_ngos.

Definition route_handler (r : Route) : Env -> Request -> Eff Response :=
  match r with
  | GET_api_map => get_api_map
  | POST_api_map => post_api_map
  | GET_api_content => get_api_content
  | GET_api_action_hub => get_api_action_hub
  | GET_api_messages => get_api_messages
  | POST_api_send_message => post_api_send_message
  | POST_api_refresh_ted_talks => post_api_refresh_ted_talks
  | POST_api_refresh_ngos => post_api_refresh_ngos
  end.

(** ** The store around the auth slice, and its listener in [main.jsx] *)

Module authStore.

(** The actions the slice exports, and any action of another slice. *)
Inductive Action : Type :=
| loginStart
| loginSuccess (payload : JSValue)
| loginFailure (payload : JSValue)
| logout
| setUser (payload : JSValue)
| other.

(** [authSlice.reducer] *)
Definition reducer (state : authSlice.AuthState) (a : Action)
  : Outcome authSlice.AuthState :=
  match a with
  | loginStart => Ret (authSlice.loginStart state)
  | loginSuccess payload => authSlice.loginSuccess state payload
  | loginFailure payload => Ret (authSlice.loginFailure state payload)
  | logout => Ret (authSlice.logout state)
  | setUser payload => Ret (authSlice.setUser state payload)
  | other => Ret state
  end.

(** [store.dispatch(a)], seen from the store: a reducer that throws
    leaves the state as it was. *)
Definition dispatch (state : authSlice.AuthState) (a : Action) : authSlice.AuthState :=
  match reducer state a with
  | Ret state' => state'
  | Throw _ => state
  end.

(** The callback given to [auth.onAuthStateChanged] in [Root]. *)
Definition onAuthStateChanged (state : authSlice.AuthState) (user : JSValue)
  : Outcome authSlice.AuthState :=
  if truthy user then
    uid ← js_get user "uid";
    email ← js_get user "email";
    displayName ← js_get user "displayName";
    photoURL ← js_get user "photoURL";
    emailVerified ← js_get user "emailVerified";
    reducer state
      (loginSuccess (JObj [("uid", uid); ("email", email);
                           ("displayName", js_or displayName (JStr ""));
                           ("photoURL", js_or photoURL (JStr ""));
                           ("emailVerified", js_or emailVerified (JBool false))]))
  else Ret state.

End authStore.

(** ** The API client: the interceptors of [utils/api.js] *)

Module api.

(** What the interceptors read of an axios response. *)
Record AxiosResponse : Type := {
  res_status : Z;
  res_data : JSValue
}.

Definition response_object (r : AxiosResponse) : JSValue :=
  JObj [("status", JNum (res_status r)); ("data", res_data r)].

(** How the promise of a call settles. *)
Inductive Settled : Type :=
| Resolved (value : JSValue)
| Rejected (reason : JSValue).

(** The first interceptor: a 2xx response resolves to its data, any other
    is rejected with the response itself. *)
Definition on_fulfilled (r : AxiosResponse) : Settled :=
  if (200 <=? res_status r) && (res_status r <? 300)
  then Resolved (res_data r)
  else Rejected (response_object r).

(** [v?.k] *)
Definition js_get_opt (v : JSValue) (k : string) : Outcome JSValue :=
  match v with
  | JUndefined | JNull => Ret JUndefined
  | _ => js_get v k
  end.

Definition no_response_message : string :=
  "No response from server. Please check your connection.".

(** The second interceptor: the reason the promise is rejected with. *)
Definition on_rejected (error : JSValue) : Outcome JSValue :=
  response ← js_get error "response";
  if truthy response then
    status ← js_get response "status";
    data ← js_get response "data";
    message ← js_get_opt data "message";
    mret (JObj [("status", status); ("data", data);
                ("message", js_or message (JStr "An error occurred"))])
  else
    request ← js_get error "request";
    if truthy request then
      mret (JObj [("message", JStr no_response_message)])
    else
      message ← js_get error "message";
      mret (JObj [("message", js_or message (JStr "Request setup failed"))]).

(** The error axios raises for an answer outside 2xx: it carries the
    response and the request. *)
Definition status_error (r : AxiosResponse) : JSValue :=
  JObj [("message", JStr ("Request failed with status code "
                          ++ NilZero.string_of_int (Z.to_int (res_status r))));
        ("request", JObj []);
        ("response", response_object r)].

(** A call through [apiClient] whose request the server answered with
    status [code] and JSON body [payload]; [fetchContent], [fetchMapData],
    [addUserLocation] and [fetchActionHubData] log and rethrow, so they
    settle the same way. *)
Definition answered (code : nat) (payload : JSValue) : Outcome Settled :=
  let r := {| res_status := Z.of_nat code; res_data := payload |} in
  if (200 <=? res_status r) && (res_status r <? 300)
  then Ret (on_fulfilled r)
  else reason ← on_rejected (status_error r); mret (Rejected reason).

End api.

(** * Vocabulary of the properties *)

(** ** Responses *)

Definition response (code : nat) (payload : JSValue) : Response :=
  {| status := code; json := payload |}.

Definition missing_fields : Response := response 400 (error_body "Missing required fields").

Definition fetch_failed (msg : string) : Response := response 500 (error_body msg).

Fixpoint remove_prop (k : string) (ps : list (string * JSValue)) : list (string * JSValue) :=
  match ps with
  | [] => []
  | (k', v) :: r => if String.eqb k k' then remove_prop k r else (k', v) :: remove_prop k r
  end.

(** ** The fetch-and-replace cycle *)

Definition nullish (v : JSValue) : bool :=
  match v with
  | JUndefined | JNull => true
  | _ => false
  end.

Definition is_object (v : JSValue) : Prop := exists ps, v = JObj ps.

(** [response.data.result.results] and [response.data.organizations]. *)
Definition talks_of (data : JSValue) : Outcome JSValue :=
  result ← js_get data "result"; js_get result "results".

Definition organizations_of (data : JSValue) : Outcome JSValue :=
  js_get data "organizations".

(** The common shape of [fetchTEDTalks] and [refreshNGOData]: one GET, the
    array picked out of the payload, one record per item, delete-all, then
    bulk insert. *)
Definition replace_collection (env : Env) (url : string)
    (extract : JSValue -> Outcome JSValue) (mapper : JSValue -> Eff JSValue)
    (c : string) : Eff (list JSValue) :=
  data ← axios_get_data env url;
  arr ← lift (extract data);
  docs ← js_array_map arr mapper;
  _ ← deleteMany env c;
  docs ← insertMany env c docs;
  mret docs.

(** A record builder throws on [null] and [undefined] items and otherwise
    returns an object, reading nothing but the clock. *)
Definition record_builder (mapper : JSValue -> Eff JSValue) : Prop :=
  forall x w,
    if nullish x then mapper x w = (Throw TypeError, w)
    else exists ps, mapper x w = (Ret (JObj ps), tick w).

(** Two worlds that differ at most in their tick counter. *)
Definition same_store (w w' : World) : Prop :=
  db w' = db w /\ log w' = log w /\ next_id w' = next_id w.

Definition well_formed_items (items : list JSValue) : bool :=
  forallb (fun x => negb (nullish x)) items.

(** The upstream fetch fails: the GET is rejected, or its payload is
    malformed (the expected array is not there, or holds a [null]). *)
Definition fetch_fails (extract : JSValue -> Outcome JSValue) (r : AxiosResult) : bool :=
  match r with
  | AxiosFail => true
  | AxiosOk data =>
      match extract data with
      | Ret (JArr items) => negb (well_formed_items items)
      | _ => true
      end
  end.

(** The document was given its storage key during the run from [w] to [w']. *)
Definition stored_between (w w' : World) (d : JSValue) : Prop :=
  exists n, prop d "_id" = JObjectId n /\ (next_id w <= n < next_id w')%nat.

(** The record leaves a property [undefined]. *)
Definition has_undefined (d : JSValue) : bool :=
  match d with
  | JObj ps => existsb (fun p => match snd p with JUndefined => true | _ => false end) ps
  | _ => false
  end.

(** The list a completed call returned. *)
Definition returned (r : Outcome (list JSValue) * World) : list JSValue :=
  match fst r with
  | Ret l => l
  | Throw _ => []
  end.

(** ** Content of a stored talk *)

(** The fields of a Talk other than [createdAt]. *)
Definition talk_fields : list string :=
  ["id"; "title"; "speaker"; "description"; "duration"; "url"; "thumbnail"; "type"].

(** The content of a stored talk: its Talk fields, by name. *)
Definition talk_content (d : JSValue) : list (string * JSValue) :=
  map (fun k => (k, prop d k)) talk_fields.

(** What the content of the record built from an upstream item has to be. *)
Definition source_content (talk : JSValue) : list (string * JSValue) :=
  [("id", prop talk "id"); ("title", prop talk "title"); ("speaker", prop talk "speaker");
   ("description", prop talk "description"); ("duration", prop talk "duration");
   ("url", prop talk "url"); ("thumbnail", prop talk "thumbnail"); ("type", JStr "Video")].

(** Every property of a stored talk: the Talk fields, the timestamp and the
    storage key, in that order. *)
Definition talk_shaped (d : JSValue) : Prop :=
  exists ps, d = JObj ps /\ map fst ps = (talk_fields ++ ["createdAt"; "_id"])%list.

(** ** Reading the cache *)

(** The limit the client asked for: [limit=n] in the query, or the route's
    default when the parameter is absent. *)
Definition requested_limit (req : Request) (d n : nat) : Prop :=
  query req !! "limit" = Some (numeral n) \/ (query req !! "limit" = None /\ n = d).

Definition cached (c : string) : Prop := c = "tedTalks" \/ c = "ngos".

(** ** Decimal numerals *)

Fixpoint uint_digits (u : Decimal.uint) : list nat :=
  match u with
  | Decimal.Nil => []
  | Decimal.D0 r => 0%nat :: uint_digits r
  | Decimal.D1 r => 1%nat :: uint_digits r
  | Decimal.D2 r => 2%nat :: uint_digits r
  | Decimal.D3 r => 3%nat :: uint_digits r
  | Decimal.D4 r => 4%nat :: uint_digits r
  | Decimal.D5 r => 5%nat :: uint_digits r
  | Decimal.D6 r => 6%nat :: uint_digits r
  | Decimal.D7 r => 7%nat :: uint_digits r
  | Decimal.D8 r => 8%nat :: uint_digits r
  | Decimal.D9 r => 9%nat :: uint_digits r
  end.

Definition chars_of (u : Decimal.uint) : list ascii :=
  list_ascii_of_string (NilEmpty.string_of_uint u).

(** ** Listings *)

(** [b] is not newer than [a], by [createdAt]. *)
Definition not_newer (a b : JSValue) : Prop :=
  newer (created_key b) (created_key a) = false.

Definition newest_first (l : list JSValue) : Prop := StronglySorted not_newer l.

(** ** Stored NGO records *)

Definition ngo_shaped (d : JSValue) : Prop :=
  prop d "type" = JStr "NGO"
  /\ truthy (prop d "description") = true
  /\ truthy (prop d "website") = true
  /\ truthy (prop d "mission") = true
  /\ (exists s, prop d "location" = JStr s)
  /\ (exists t, prop d "createdAt" = JDate t).

(** ** Effects of a run *)

Definition is_write (ev : Event) : bool :=
  match ev with
  | EvDeleteMany _ | EvInsertMany _ _ | EvInsertOne _ _ => true
  | _ => false
  end.

Definition is_publish (ev : Event) : bool :=
  match ev with
  | EvPublish _ _ _ => true
  | _ => false
  end.

(** The events a run from [w] to [w'] added to the trace. *)
Definition events_since (w w' : World) : list Event := drop (length (log w)) (log w').

(** ** Relations between the worlds before and after a run *)

(** [m] keeps [R]: every run of [m], whatever its outcome, relates the
    world it starts in to the world it leaves. *)
Definition keeps {A} (R : World -> World -> Prop) (m : Eff A) : Prop :=
  forall w o w', m w = (o, w') -> R w w'.

(** A relation that composes along a run, with the events it lets a step
    record and the collection writes it lets a step make. *)
Class RunRel (R : World -> World -> Prop) : Type := {
  ok_event : Event -> Prop;
  ok_put : string -> list JSValue -> list JSValue -> Prop;
  rr_refl : forall w, R w w;
  rr_trans : forall w1 w2 w3, R w1 w2 -> R w2 w3 -> R w1 w3;
  rr_tick : forall w, R w (tick w);
  rr_bump : forall k w, R w (bump_ids k w);
  rr_record : forall ev w, ok_event ev -> R w (record ev w);
  rr_put : forall c docs w, ok_put c (coll w c) docs -> R w (put_coll c docs w)
}.

(** Collection [c] is as it was. *)
Definition keeps_coll (c : string) (w w' : World) : Prop := coll w' c = coll w c.

(** Collection [c] still starts with the documents it had. *)
Definition grows_coll (c : string) (w w' : World) : Prop := coll w c `prefix_of` coll w' c.

(** The run recorded only events that satisfy [P]. *)
Definition emits (P : Event -> bool) (w w' : World) : Prop :=
  exists evs, log w' = (log w ++ evs)%list /\ forallb P evs = true.

(** The collection a route works on. *)
Definition route_collection (r : Route) : string :=
  match r with
  | GET_api_map | POST_api_map => "mapData"
  | GET_api_content | POST_api_refresh_ted_talks => "tedTalks"
  | GET_api_action_hub | POST_api_refresh_ngos => "ngos"
  | GET_api_messages | POST_api_send_message => "messages"
  end.

(** The external effects a route may attempt. *)
Definition route_may (r : Route) (ev : Event) : bool :=
  match r, ev with
  | (GET_api_map | GET_api_messages), EvFind c => String.eqb c (route_collection r)
  | (POST_api_map | POST_api_send_message), EvInsertOne c _ =>
      String.eqb c (route_collection r)
  | POST_api_send_message, EvPublish ch ev _ =>
      String.eqb ch "chat" && String.eqb ev "message"
  | (GET_api_content | GET_api_action_hub), EvFind c => String.eqb c (route_collection r)
  | (GET_api_content | POST_api_refresh_ted_talks), EvHttpGet url => String.eqb url TED_URL
  | (GET_api_action_hub | POST_api_refresh_ngos), EvHttpGet url => String.eqb url NGO_URL
  | (GET_api_content | POST_api_refresh_ted_talks
     | GET_api_action_hub | POST_api_refresh_ngos), (EvDeleteMany c | EvInsertMany c _) =>
      String.eqb c (route_collection r)
  | _, _ => false
  end.

(** ** Chat messages *)

(** The message object the handler builds. *)
Definition message_of (env : Env) (req : Request) (w : World) : JSValue :=
  JObj [("text", prop (body req) "text"); ("user", prop (body req) "user");
        ("photoURL", js_or (prop (body req) "photoURL") (JStr ""));
        ("createdAt", JDate (clock env (ticks w)))].

(** The access gate of the refresh routes lets the request through. *)
Definition admitted (env : Env) (req : Request) : Prop :=
  NODE_ENV env <> Some "production" \/ headers req !! "x-api-key" = ADMIN_API_KEY env.

(** ** Answers of the routes *)

(** A success, or an error status with a body of the form [{ error: msg }]. *)
Definition answer_ok (resp : Response) : Prop :=
  status resp = 200%nat \/ status resp = 201%nat
  \/ (In (status resp) [400; 403; 500]%nat /\ exists msg, json resp = error_body msg).

(** Every response [m] returns satisfies [P]. *)
Definition returns_only (P : Response -> Prop) (m : Eff Response) : Prop :=
  forall w resp w', m w = (Ret resp, w') -> P resp.

(** ** The auth store *)

Definition user_fields : list string :=
  ["uid"; "email"; "displayName"; "photoURL"; "emailVerified"].

(** Signed out, or a user object with exactly the five fields, of which
    [displayName] and [photoURL] are truthy or [''] and [emailVerified] is
    truthy or [false]. *)
Definition user_ok (u : JSValue) : Prop :=
  u = JNull
  \/ exists ps,
       u = JObj ps /\ map fst ps = user_fields
       /\ (truthy (prop u "displayName") = true \/ prop u "displayName" = JStr "")
       /\ (truthy (prop u "photoURL") = true \/ prop u "photoURL" = JStr "")
       /\ (truthy (prop u "emailVerified") = true \/ prop u "emailVerified" = JBool false).

Definition is_setUser (a : authStore.Action) : bool :=
  match a with
  | authStore.setUser _ => true
  | _ => false
  end.

(** Actions that belong to a login attempt that does not succeed. *)
Definition is_attempt (a : authStore.Action) : bool :=
  match a with
  | authStore.loginStart | authStore.loginFailure _ | authStore.other => true
  | _ => false
  end.

(** The state after dispatching the actions in order. *)
Definition dispatch_all (state : authSlice.AuthState) (acts : list authStore.Action)
  : authSlice.AuthState :=
  fold_left authStore.dispatch acts state.

(** * Sample data *)

(** ** A text matcher, an environment, requests *)

Definition lower (a : ascii) : ascii :=
  let n := nat_of_ascii a in
  if ((65 <=? n) && (n <=? 90))%nat then ascii_of_nat (n + 32) else a.

Fixpoint words_of (cur : list ascii) (s : list ascii) : list (list ascii) :=
  match s with
  | [] => match cur with [] => [] | _ => [rev cur] end
  | a :: r =>
      if is_ws a then match cur with [] => words_of [] r | _ => rev cur :: words_of [] r end
      else words_of (lower a :: cur) r
  end.

(** A stand-in for the database's text matcher: some word of the search
    occurs as a word of the text, ignoring ASCII case. *)
Definition word_search (s t : string) : bool :=
  let ws := words_of [] (list_ascii_of_string s) in
  let wt := words_of [] (list_ascii_of_string t) in
  existsb (fun x => existsb (fun y => String.eqb (string_of_list_ascii x) (string_of_list_ascii y)) wt) ws.

Definition empty_world : World := {| db := ∅; log := []; ticks := 0; next_id := 0 |}.

Definition sample_env (up : string -> AxiosResult) : Env :=
  {| NODE_ENV := Some "production";
     ADMIN_API_KEY := Some "s3cret";
     axios_get := fun _ url => up url;
     clock := fun t => 1700000000000 + Z.of_nat t;
     storage_ok := fun _ _ => true;
     text_search := word_search;
     insert_result_has_ops := true;
     host_to_string := fun _ => "";
     err_message := fun _ => "";
     err_stack := fun _ => "" |}.

Definition offline : string -> AxiosResult := fun _ => AxiosFail.

Definition request (q : list (string * string)) (b : JSValue) (h : list (string * string))
  : Request :=
  {| query := list_to_map q; body := b; headers := list_to_map h |}.

(** ** Upstream payloads and a stale cache *)

Definition talk_item (id : Z) (title speaker : string) : JSValue :=
  JObj [("id", JNum id); ("title", JStr title); ("speaker", JStr speaker);
        ("description", JStr "about"); ("duration", JNum 600);
        ("url", JStr "https://ted.example/t"); ("thumbnail", JStr "t.jpg")].

Definition talks_payload (items : list JSValue) : JSValue :=
  JObj [("result", JObj [("results", JArr items)])].

Definition org_item (ein : Z) (name : string) : JSValue :=
  JObj [("ein", JNum ein); ("name", JStr name); ("city", JStr "Austin");
        ("state", JStr "TX"); ("ntee_code", JStr "C30")].

Definition orgs_payload (items : list JSValue) : JSValue :=
  JObj [("organizations", JArr items)].

Definition two_talks : JSValue :=
  talks_payload [talk_item 1 "The Ocean cleanup" "A"; talk_item 2 "Soil" "B"].

Definition five_orgs : JSValue :=
  orgs_payload [org_item 1 "One"; org_item 2 "Two"; org_item 3 "Three";
                org_item 4 "Four"; org_item 5 "Five"].

Definition broken_talks : JSValue := JObj [("result", JObj [("results", JArr [JNull])])].

Definition upstream (talks orgs : JSValue) : string -> AxiosResult :=
  fun url => if String.eqb url TED_URL then AxiosOk talks else AxiosOk orgs.

Definition stale_talk : JSValue :=
  JObj [("id", JNum 99); ("title", JStr "The Ocean cleanup"); ("type", JStr "Video");
        ("createdAt", JDate 1600000000000); ("_id", JObjectId 0)].

Definition stale_world : World :=
  {| db := {["tedTalks" := [stale_talk]]}; log := []; ticks := 0; next_id := 1 |}.

(** ** Stored check-ins and messages *)

Definition checkin_doc (id : nat) (category : string) (t : Z) : JSValue :=
  JObj [("location", JStr "Pune"); ("interest", JStr "trees");
        ("category", JStr category); ("userId", JNull);
        ("createdAt", JDate t); ("_id", JObjectId id)].

Definition message_doc (id : nat) (text : string) (t : Z) : JSValue :=
  JObj [("text", JStr text); ("user", JStr "alice"); ("photoURL", JStr "");
        ("createdAt", JDate t); ("_id", JObjectId id)].

Definition busy_world : World :=
  {| db := {[ "mapData" := [checkin_doc 0 "general" 10; checkin_doc 1 "water" 30;
                            checkin_doc 2 "general" 20];
              "messages" := [message_doc 3 "one" 100; message_doc 4 "two" 300;
                             message_doc 5 "three" 200];
              "ngos" := [JObj [("id", JNum 7); ("name", JStr "Seven"); ("type", JStr "NGO");
                               ("createdAt", JDate 50); ("_id", JObjectId 6)]] ]};
     log := []; ticks := 0; next_id := 7 |}.


(** An environment whose driver returns insert results without [ops]. *)
Definition without_ops (env : Env) : Env :=
  {| NODE_ENV := NODE_ENV env;
     ADMIN_API_KEY := ADMIN_API_KEY env;
     axios_get := axios_get env;
     clock := clock env;
     storage_ok := storage_ok env;
     text_search := text_search env;
     insert_result_has_ops := false;
     host_to_string := host_to_string env;
     err_message := err_message env;
     err_stack := err_stack env |}.

(** * Properties *)

(** ** Reading numbers out of query strings *)

Example parseInt_examples :
  parseInt "2" = Some 2 /\ parseInt " -12px" = Some (-12) /\ parseInt "0x1f" = Some 31
  /\ parseInt "abc" = None /\ parseInt "" = None /\ parseInt "2.5" = Some 2
  /\ parseInt "1e2" = Some 1.
Proof. repeat split; reflexivity. Qed.

Example string_to_integer_examples :
  string_to_integer "2" = Fin 2 /\ string_to_integer " 7 " = Fin 7
  /\ string_to_integer "2abc" = Fin 0 /\ string_to_integer "" = Fin 0
  /\ string_to_integer "1e2" = Fin 100 /\ string_to_integer "2.9" = Fin 2
  /\ string_to_integer "-1" = Fin (-1) /\ string_to_integer "0x10" = Fin 16
  /\ string_to_integer "-Infinity" = NegInf /\ string_to_integer "." = Fin 0
  /\ string_to_integer "25e-1" = Fin 2.
Proof. repeat split; reflexivity. Qed.

Example slice0_examples :
  slice0 [1; 2; 3; 4; 5]%nat (Fin 2) = [1; 2]%nat
  /\ slice0 [1; 2; 3]%nat (Fin (-1)) = [1; 2]%nat
  /\ slice0 [1; 2; 3]%nat (Fin 9) = [1; 2; 3]%nat
  /\ slice0 [1; 2; 3]%nat NegInf = [].
Proof. repeat split; reflexivity. Qed.

(** ** The sample text matcher *)

Example word_search_examples :
  word_search "ocean" "The Ocean cleanup" = true /\ word_search "quantum" "The Ocean cleanup" = false.
Proof. split; reflexivity. Qed.

(** ** Access gate of the refresh routes *)




(** With no admin key configured the comparison is between two [undefined]
    values, and a request without the header passes the gate. *)
Remark refresh_gate_without_key (env : Env) (req : Request) :
  ADMIN_API_KEY env = None ->
  headers req !! "x-api-key" = None ->
  refresh_denied env req = false.
Proof.
  intros Hk Hh. unfold refresh_denied. rewrite Hk, Hh.
  rewrite (bool_decide_eq_true_2 (None = None)) by reflexivity.
  apply andb_false_r.
Qed.

(** ** Request validation *)

Lemma lookup_set_prop (k : string) (v : JSValue) ps : lookup_prop k (set_prop k v ps) = v.
Proof.
  induction ps as [| [k' v'] r IH]; simpl.
  - now rewrite String.eqb_refl.
  - destruct (String.eqb k k') eqn:E; simpl.
    + now rewrite String.eqb_refl.
    + now rewrite E.
Qed.

Lemma lookup_remove_prop (k : string) ps : lookup_prop k (remove_prop k ps) = JUndefined.
Proof.
  induction ps as [| [k' v'] r IH]; simpl; [reflexivity |].
  destruct (String.eqb k k') eqn:E; simpl; [exact IH | now rewrite E].
Qed.

Lemma js_get_defined (b : JSValue) (k k' : string) (v : JSValue) :
  js_get b k = Ret v -> exists v', js_get b k' = Ret v'.
Proof. destruct b; simpl; intros H; try discriminate; eexists; reflexivity. Qed.

Lemma post_api_map_rejects env req w location interest :
  js_get (body req) "location" = Ret location ->
  js_get (body req) "interest" = Ret interest ->
  truthy location = false \/ truthy interest = false ->
  post_api_map env req w = (Ret missing_fields, w).
Proof.
  intros Hl Hi Hf.
  destruct (js_get_defined _ _ "category" _ Hl) as [c Hc].
  destruct (js_get_defined _ _ "userId" _ Hl) as [u Hu].
  unfold post_api_map, try_catch, mbind, eff_bind, lift.
  rewrite Hl, Hi, Hc, Hu.
  destruct Hf as [-> | ->]; simpl; rewrite ?orb_true_r; reflexivity.
Qed.

Lemma post_api_send_message_rejects env req w text user :
  js_get (body req) "text" = Ret text ->
  js_get (body req) "user" = Ret user ->
  truthy text = false \/ truthy user = false ->
  post_api_send_message env req w = (Ret missing_fields, w)
  /\ exists payload, post_api_send_message_rev2 env req w = (Ret (response 400 payload), w).
Proof.
  intros Ht Hu Hf.
  unfold post_api_send_message, post_api_send_message_rev2, try_catch, mbind, eff_bind, lift.
  destruct (js_get_defined _ _ "photoURL" _ Ht) as [p Hp].
  rewrite Ht, Hu, Hp.
  destruct Hf as [-> | ->]; simpl; rewrite ?orb_true_r;
    (split; [reflexivity | eexists; reflexivity]).
Qed.

(** C6. A message whose body lacks [text] or lacks [user] is answered 400
    and the world is left as it was: no insert into [messages], no publish
    (in both revisions of the route). *)
Theorem send_message_requires_text_and_user (env : Env) (req : Request) (w : World) :
  js_get (body req) "text" = Ret JUndefined \/ js_get (body req) "user" = Ret JUndefined ->
  post_api_send_message env req w = (Ret missing_fields, w)
  /\ exists payload, post_api_send_message_rev2 env req w = (Ret (response 400 payload), w).
Proof.
  intros [H | H].
  - destruct (js_get_defined _ _ "user" _ H) as [u Hu].
    apply (post_api_send_message_rejects env req w _ _ H Hu). now left.
  - destruct (js_get_defined _ _ "text" _ H) as [t Ht].
    apply (post_api_send_message_rejects env req w _ _ Ht H). now right.
Qed.

Lemma send_message_requires_text_and_user_witness :
  post_api_send_message (sample_env offline)
    (request [] (JObj [("text", JStr "hi")]) []) empty_world
  = (Ret missing_fields, empty_world)
  /\ exists payload,
       post_api_send_message_rev2 (sample_env offline)
         (request [] (JObj [("text", JStr "hi")]) []) empty_world
       = (Ret (response 400 payload), empty_world).
Proof.
  apply (send_message_requires_text_and_user (sample_env offline)
           (request [] (JObj [("text", JStr "hi")]) []) empty_world).
  right. reflexivity.
Defined.

(** C9. The required fields are checked for truthiness: a body in which a
    required field is present with a falsy value (the empty string, 0,
    null) is answered exactly as the body without the field, with 400 and
    the world left as it was, on [POST /api/map] and on
    [POST /api/send-message]. *)
Theorem falsy_required_field_is_missing
    (env : Env) (w : World) (q h : gmap string string)
    (ps : list (string * JSValue)) (k : string) (v : JSValue) :
  truthy v = false ->
  let present := {| query := q; body := JObj (set_prop k v ps); headers := h |} in
  let absent := {| query := q; body := JObj (remove_prop k ps); headers := h |} in
  (k = "location" \/ k = "interest" ->
     post_api_map env present w = (Ret missing_fields, w)
     /\ post_api_map env absent w = (Ret missing_fields, w))
  /\ (k = "text" \/ k = "user" ->
        post_api_send_message env present w = (Ret missing_fields, w)
        /\ post_api_send_message env absent w = (Ret missing_fields, w)
        /\ (exists p, post_api_send_message_rev2 env present w = (Ret (response 400 p), w))
        /\ (exists p, post_api_send_message_rev2 env absent w = (Ret (response 400 p), w))).
Proof.
  intros Hv present absent. split.
  - intros Hk. split.
    + eapply post_api_map_rejects; [reflexivity | reflexivity |].
      simpl. destruct Hk as [-> | ->]; [left | right]; now rewrite lookup_set_prop.
    + eapply post_api_map_rejects; [reflexivity | reflexivity |].
      simpl. destruct Hk as [-> | ->]; [left | right]; now rewrite lookup_remove_prop.
  - intros Hk.
    assert (Hp : truthy (lookup_prop "text" (set_prop k v ps)) = false
                 \/ truthy (lookup_prop "user" (set_prop k v ps)) = false).
    { destruct Hk as [-> | ->]; [left | right]; now rewrite lookup_set_prop. }
    assert (Ha : truthy (lookup_prop "text" (remove_prop k ps)) = false
                 \/ truthy (lookup_prop "user" (remove_prop k ps)) = false).
    { destruct Hk as [-> | ->]; [left | right]; now rewrite lookup_remove_prop. }
    pose proof (post_api_send_message_rejects env present w _ _ eq_refl eq_refl Hp) as [P1 P2].
    pose proof (post_api_send_message_rejects env absent w _ _ eq_refl eq_refl Ha) as [A1 A2].
    repeat split; assumption.
Qed.

Lemma falsy_required_field_is_missing_witness :
  truthy (JStr "") = false /\ truthy (JNum 0) = false /\ truthy JNull = false
  /\ post_api_map (sample_env offline)
       {| query := ∅; headers := ∅;
          body := JObj (set_prop "interest" (JStr "")
                          [("location", JStr "Pune"); ("interest", JStr "trees")]) |}
       empty_world
     = (Ret missing_fields, empty_world)
  /\ post_api_send_message (sample_env offline)
       {| query := ∅; headers := ∅;
          body := JObj (set_prop "text" (JNum 0) [("user", JStr "alice")]) |}
       empty_world
     = (Ret missing_fields, empty_world).
Proof.
  split; [reflexivity |]. split; [reflexivity |]. split; [reflexivity |]. split.
  - apply (proj1 (falsy_required_field_is_missing (sample_env offline) empty_world ∅ ∅
             [("location", JStr "Pune"); ("interest", JStr "trees")] "interest" (JStr "")
             eq_refl)).
    right; reflexivity.
  - apply (proj2 (falsy_required_field_is_missing (sample_env offline) empty_world ∅ ∅
             [("user", JStr "alice")] "text" (JNum 0) eq_refl)).
    left; reflexivity.
Defined.

(** ** Stored documents *)

Lemma stored_value_defined (v : JSValue) : v <> JUndefined -> stored_value v = v.
Proof. intros H. destruct v; try reflexivity. contradiction. Qed.

Lemma stored_value_truthy (v : JSValue) : truthy v = true -> stored_value v = v.
Proof. intros H. apply stored_value_defined. intros ->. discriminate. Qed.

Lemma lookup_prop_stored (k : string) ps :
  lookup_prop k ps <> JUndefined ->
  lookup_prop k (map (fun p => (fst p, stored_value (snd p))) ps) = lookup_prop k ps.
Proof.
  induction ps as [| [k' v] r IH]; simpl; [intros H; now destruct H |].
  destruct (String.eqb k k'); [apply stored_value_defined | exact IH].
Qed.

Lemma prop_stored_form (d : JSValue) (k : string) :
  prop d k <> JUndefined -> prop (stored_form d) k = prop d k.
Proof. destruct d; simpl; try (intros H; now destruct H). apply lookup_prop_stored. Qed.

(** ** Check-ins *)

(** C8. A valid check-in (truthy [location] and [interest]) whose insert the
    storage accepts adds exactly one document to [mapData]; its [createdAt]
    is the server's clock reading, whatever the body carried, and its
    [category] is ["general"] when the body had none.  The 201 answer
    carries the document as it is in memory, of which the appended one is
    the stored form: the same document when the body gives a [userId]. *)
Theorem checkin_createdAt_and_category
    (env : Env) (req : Request) (w : World) (location interest : JSValue) :
  js_get (body req) "location" = Ret location -> truthy location = true ->
  js_get (body req) "interest" = Ret interest -> truthy interest = true ->
  storage_ok env (S (ticks w)) (OpInsertOne "mapData") = true ->
  exists doc out w',
    post_api_map env req w = (out, w')
    /\ coll w' "mapData" = (coll w "mapData" ++ [doc])%list
    /\ prop doc "location" = location
    /\ prop doc "interest" = interest
    /\ prop doc "createdAt" = JDate (clock env (ticks w))
    /\ (js_get (body req) "category" = Ret JUndefined -> prop doc "category" = JStr "general")
    /\ (insert_result_has_ops env = true ->
        exists answer,
          out = Ret (response 201 answer) /\ stored_form answer = doc
          /\ (js_get (body req) "userId" <> Ret JUndefined -> answer = doc)).
Proof.
  intros Hl Tl Hi Ti Hok.
  destruct (js_get_defined _ _ "category" _ Hl) as [c Hc].
  destruct (js_get_defined _ _ "userId" _ Hl) as [u Hu].
  unfold post_api_map, try_catch, mbind, eff_bind, lift.
  rewrite Hl, Hi, Hc, Hu, Tl, Ti. simpl.
  unfold insertOne. simpl. rewrite Hok.
  unfold result_ops_0.
  destruct (insert_result_has_ops env); simpl;
    (do 3 eexists; split; [reflexivity |]);
    (split; [unfold coll; simpl; now rewrite lookup_insert_eq |]);
    (split; [simpl; now apply stored_value_truthy |]);
    (split; [simpl; now apply stored_value_truthy |]);
    (split; [reflexivity |]);
    (split; [intros E; injection E as ->; reflexivity |]);
    intros E; try discriminate; eexists; (split; [reflexivity |]); (split; [reflexivity |]);
    intros Hu'; simpl;
    rewrite (stored_value_truthy _ Tl), (stored_value_truthy _ Ti);
    rewrite (stored_value_defined (default_to _ _)) by (destruct c; discriminate);
    rewrite (stored_value_defined u) by (intros ->; now apply Hu');
    reflexivity.
Qed.

Lemma checkin_createdAt_and_category_witness :
  exists doc out w',
    post_api_map (sample_env offline)
      (request [] (JObj [("location", JStr "Pune"); ("interest", JStr "trees");
                         ("createdAt", JStr "1999-01-01")]) [])
      empty_world = (out, w')
    /\ coll w' "mapData" = (coll empty_world "mapData" ++ [doc])%list
    /\ prop doc "location" = JStr "Pune"
    /\ prop doc "interest" = JStr "trees"
    /\ prop doc "createdAt" = JDate 1700000000000
    /\ (Ret (A := JSValue) JUndefined = Ret JUndefined -> prop doc "category" = JStr "general")
    /\ (true = true ->
        exists answer,
          out = Ret (response 201 answer) /\ stored_form answer = doc
          /\ (Ret (A := JSValue) JUndefined <> Ret JUndefined -> answer = doc)).
Proof.
  apply (checkin_createdAt_and_category (sample_env offline)
           (request [] (JObj [("location", JStr "Pune"); ("interest", JStr "trees");
                              ("createdAt", JStr "1999-01-01")]) [])
           empty_world (JStr "Pune") (JStr "trees"));
    reflexivity.
Defined.

(** ** The auth reducer *)

(** C10, as stated, fails: with an [undefined] payload (the action creator
    called without an argument) the reducer throws while reading
    [user.uid] and produces no state. *)
Lemma loginSuccess_undefined_payload_throws :
  authSlice.loginSuccess authSlice.initialState JUndefined = Throw TypeError
  /\ ~ exists st, authSlice.loginSuccess authSlice.initialState JUndefined = Ret st.
Proof.
  split; [reflexivity |]. intros [st H]. discriminate H.
Qed.

(** C10, amended. For every payload other than [undefined] and [null] the
    reducer returns the state whose [user] has exactly the five properties
    [uid], [email], [displayName], [photoURL], [emailVerified], read from
    the payload, with [''] in place of a falsy [displayName] or [photoURL]
    and [false] in place of a falsy [emailVerified]; [loading] is [false]
    and [error] is [null].  No other property of the payload is kept. *)
Theorem loginSuccess_stores_five_fields (state : authSlice.AuthState) (payload : JSValue) :
  payload <> JUndefined -> payload <> JNull ->
  exists st,
    authSlice.loginSuccess state payload = Ret st
    /\ authSlice.user st =
         JObj [("uid", prop payload "uid"); ("email", prop payload "email");
               ("displayName", js_or (prop payload "displayName") (JStr ""));
               ("photoURL", js_or (prop payload "photoURL") (JStr ""));
               ("emailVerified", js_or (prop payload "emailVerified") (JBool false))]
    /\ (prop payload "displayName" = JUndefined -> prop (authSlice.user st) "displayName" = JStr "")
    /\ (prop payload "photoURL" = JUndefined -> prop (authSlice.user st) "photoURL" = JStr "")
    /\ (prop payload "emailVerified" = JUndefined ->
          prop (authSlice.user st) "emailVerified" = JBool false)
    /\ (forall k, ~ In k ["uid"; "email"; "displayName"; "photoURL"; "emailVerified"] ->
          prop (authSlice.user st) k = JUndefined)
    /\ authSlice.loading st = false
    /\ authSlice.error st = JNull.
Proof.
  intros Hu Hn.
  assert (Hget : forall k, js_get payload k = Ret (prop payload k)).
  { intros k. destruct payload; try reflexivity; contradiction. }
  unfold authSlice.loginSuccess, mbind, outcome_bind. rewrite !Hget.
  eexists. split; [reflexivity |]. simpl.
  split; [reflexivity |].
  split; [intros ->; reflexivity |].
  split; [intros ->; reflexivity |].
  split; [intros ->; reflexivity |].
  split; [| split; reflexivity].
  intros k Hk.
  repeat match goal with
         | |- context [String.eqb k ?s] =>
             destruct (String.eqb_spec k s);
             [subst k; exfalso; apply Hk; simpl; tauto |]
         end.
  reflexivity.
Qed.

Lemma loginSuccess_stores_five_fields_witness :
  exists st,
    authSlice.loginSuccess authSlice.initialState
      (JObj [("uid", JStr "u1"); ("email", JStr "a@b.c"); ("accessToken", JStr "tok")]) = Ret st
    /\ authSlice.user st =
         JObj [("uid", JStr "u1"); ("email", JStr "a@b.c"); ("displayName", JStr "");
               ("photoURL", JStr ""); ("emailVerified", JBool false)]
    /\ prop (authSlice.user st) "accessToken" = JUndefined.
Proof.
  destruct (loginSuccess_stores_five_fields authSlice.initialState
              (JObj [("uid", JStr "u1"); ("email", JStr "a@b.c"); ("accessToken", JStr "tok")]))
    as (st & Hst & Huser & _ & _ & _ & Hother & _).
  - discriminate.
  - discriminate.
  - exists st. split; [exact Hst |]. split; [exact Huser |].
    apply Hother. simpl. intros [H | [H | [H | [H | [H | []]]]]]; discriminate H.
Defined.

(** ** The fetch-and-replace cycle *)

Lemma fetchTEDTalks_cycle env w :
  fetchTEDTalks env w
  = replace_collection env TED_URL talks_of (talk_record env) "tedTalks" w.
Proof.
  unfold fetchTEDTalks, replace_collection, try_catch, throw, talks_of, mbind, eff_bind,
    outcome_bind, lift, axios_get_data.
  destruct (axios_get env (ticks w) TED_URL) as [| data]; [reflexivity |].
  destruct (js_get data "result") as [result | e]; [| reflexivity].
  destruct (js_get result "results") as [results | e]; [| reflexivity].
  destruct (js_array_map results (talk_record env) _) as [[talks | e] w1]; [| reflexivity].
  destruct (deleteMany env "tedTalks" w1) as [[[] | e] w2]; [| reflexivity].
  destruct (insertMany env "tedTalks" talks w2) as [[stored | e] w3]; reflexivity.
Qed.

Lemma refreshNGOData_cycle env w :
  refreshNGOData env w
  = replace_collection env NGO_URL organizations_of (ngo_record env) "ngos" w.
Proof.
  unfold refreshNGOData, replace_collection, try_catch, throw, organizations_of, mbind,
    eff_bind, lift, axios_get_data.
  destruct (axios_get env (ticks w) NGO_URL) as [| data]; [reflexivity |].
  destruct (js_get data "organizations") as [orgs | e]; [| reflexivity].
  destruct (js_array_map orgs (ngo_record env) _) as [[ngos | e] w1]; [| reflexivity].
  destruct (deleteMany env "ngos" w1) as [[[] | e] w2]; [| reflexivity].
  destruct (insertMany env "ngos" ngos w2) as [[stored | e] w3]; reflexivity.
Qed.

Lemma talk_record_builder env : record_builder (talk_record env).
Proof.
  intros x w. destruct x; simpl; try reflexivity; eexists; reflexivity.
Qed.

Lemma ngo_record_builder env : record_builder (ngo_record env).
Proof.
  intros x w. destruct x; simpl; try reflexivity; eexists; reflexivity.
Qed.

Lemma same_store_refl w : same_store w w.
Proof. repeat split. Qed.

Section Cycle.

Variables (env : Env) (url : string) (extract : JSValue -> Outcome JSValue).
Variables (mapper : JSValue -> Eff JSValue) (c : string).
Hypothesis mapper_builds : record_builder mapper.

Lemma map_eff_same_store items : forall w o w',
  map_eff mapper items w = (o, w') -> same_store w w'.
Proof.
  induction items as [| x r IH]; intros w o w' H; simpl in H.
  - injection H as _ <-. apply same_store_refl.
  - unfold mbind, eff_bind in H. pose proof (mapper_builds x w) as Hx.
    destruct (nullish x).
    + rewrite Hx in H. injection H as _ <-. apply same_store_refl.
    + destruct Hx as [ps Hx]. rewrite Hx in H.
      destruct (map_eff mapper r (tick w)) as [[ys | e] w1] eqn:Hr;
        injection H as _ <-; apply IH in Hr;
        destruct Hr as (? & ? & ?); repeat split; assumption.
Qed.

Lemma map_eff_returns items : forall w mapped w',
  map_eff mapper items w = (Ret mapped, w') ->
  well_formed_items items = true /\ Forall is_object mapped
  /\ length mapped = length items.
Proof.
  induction items as [| x r IH]; intros w mapped w' H; simpl in H.
  - injection H as <- _. repeat split. constructor.
  - unfold mbind, eff_bind in H. pose proof (mapper_builds x w) as Hx.
    simpl. destruct (nullish x).
    + rewrite Hx in H. discriminate.
    + destruct Hx as [ps Hx]. rewrite Hx in H.
      destruct (map_eff mapper r (tick w)) as [[ys | e] w1] eqn:Hr; [| discriminate].
      injection H as <- _. apply IH in Hr as (Hwf & Hobj & Hlen).
      repeat split; [exact Hwf | | simpl; now rewrite Hlen].
      constructor; [now exists ps | exact Hobj].
Qed.

Lemma map_eff_malformed items : forall w,
  well_formed_items items = false ->
  exists w', map_eff mapper items w = (Throw TypeError, w').
Proof.
  induction items as [| x r IH]; intros w H; simpl in H; [discriminate |].
  simpl. unfold mbind, eff_bind. pose proof (mapper_builds x w) as Hx.
  destruct (nullish x); simpl in H.
  - rewrite Hx. eauto.
  - destruct Hx as [ps ->]. destruct (IH (tick w) H) as [w' ->]. eauto.
Qed.

Lemma map_eff_well_formed items : forall w,
  well_formed_items items = true ->
  exists mapped w', map_eff mapper items w = (Ret mapped, w').
Proof.
  induction items as [| x r IH]; intros w H; simpl in H.
  - do 2 eexists. reflexivity.
  - simpl. unfold mbind, eff_bind. pose proof (mapper_builds x w) as Hx.
    destruct (nullish x); simpl in H; [discriminate |].
    destruct Hx as [ps ->]. destruct (IH (tick w) H) as (ys & w' & ->).
    do 2 eexists. reflexivity.
Qed.

End Cycle.

Lemma coll_put_coll_eq c docs w : coll (put_coll c docs w) c = docs.
Proof. unfold coll, put_coll; simpl. now rewrite lookup_insert_eq. Qed.

Section CycleRuns.

Variables (env : Env) (url : string) (extract : JSValue -> Outcome JSValue).
Variables (mapper : JSValue -> Eff JSValue) (c : string).
Hypothesis mapper_builds : record_builder mapper.

Let cycle := replace_collection env url extract mapper c.

(** A completed cycle: what was fetched, what is stored, what happened. *)
Lemma cycle_returns w docs w' :
  cycle w = (Ret docs, w') ->
  exists data items mapped,
    axios_get env (ticks w) url = AxiosOk data
    /\ extract data = Ret (JArr items)
    /\ (exists wm, map_eff mapper items (record (EvHttpGet url) w) = (Ret mapped, wm))
    /\ Forall is_object mapped
    /\ docs = assign_ids (next_id w) mapped
    /\ db w' = <[c := map stored_form docs]> (<[c := []]> (db w))
    /\ log w' = (log w ++ [EvHttpGet url; EvDeleteMany c; EvInsertMany c mapped])%list
    /\ next_id w' = (next_id w + length mapped)%nat.
Proof.
  unfold cycle, replace_collection, mbind, eff_bind, lift, axios_get_data.
  destruct (axios_get env (ticks w) url) as [| data] eqn:Hget; [discriminate |].
  destruct (extract data) as [arr | e] eqn:Hex; [| discriminate].
  destruct arr; simpl; try discriminate.
  destruct (map_eff mapper items _) as [[mapped | e] wm] eqn:Hmap; [| discriminate].
  pose proof (map_eff_same_store mapper mapper_builds _ _ _ _ Hmap) as (Hdb & Hlog & Hid).
  pose proof (map_eff_returns mapper mapper_builds _ _ _ _ Hmap) as (_ & Hobj & _).
  unfold deleteMany.
  destruct (storage_ok env (ticks wm) (OpDeleteMany c)); [| discriminate].
  unfold insertMany.
  destruct (storage_ok env _ (OpInsertMany c (length mapped))); [| discriminate].
  intros H. injection H as <- <-.
  exists data, items, mapped.
  split; [reflexivity |]. split; [exact Hex |]. split; [eauto |]. split; [exact Hobj |].
  rewrite coll_put_coll_eq. simpl. rewrite Hdb, Hlog, Hid. simpl in *.
  split; [reflexivity |]. split; [reflexivity |]. split; [| reflexivity].
  now rewrite <- !app_assoc.
Qed.

(** A failed upstream fetch: one GET attempted, nothing else touched. *)
Lemma cycle_upstream_failure w :
  fetch_fails extract (axios_get env (ticks w) url) = true ->
  exists e w',
    cycle w = (Throw e, w')
    /\ db w' = db w
    /\ log w' = (log w ++ [EvHttpGet url])%list
    /\ next_id w' = next_id w.
Proof.
  unfold fetch_fails, cycle, replace_collection, mbind, eff_bind, lift, axios_get_data.
  destruct (axios_get env (ticks w) url) as [| data].
  { intros _. do 2 eexists. split; [reflexivity |]. repeat split. }
  destruct (extract data) as [arr | e].
  2: { intros _. do 2 eexists. split; [reflexivity |]. repeat split. }
  destruct arr; try (intros _; do 2 eexists; split; [reflexivity |]; repeat split).
  intros Hwf. apply negb_true_iff in Hwf. simpl.
  destruct (map_eff_malformed mapper mapper_builds items (record (EvHttpGet url) w) Hwf)
    as [wm Hmap].
  pose proof (map_eff_same_store mapper mapper_builds _ _ _ _ Hmap) as (Hdb & Hlog & Hid).
  rewrite Hmap. do 2 eexists. split; [reflexivity |].
  rewrite Hdb, Hlog, Hid. repeat split.
Qed.

(** With a payload that is well formed and storage that accepts the two
    writes, the cycle completes. *)
Lemma cycle_completes w data items :
  axios_get env (ticks w) url = AxiosOk data ->
  extract data = Ret (JArr items) ->
  well_formed_items items = true ->
  (forall t op, storage_ok env t op = true) ->
  exists docs w', cycle w = (Ret docs, w').
Proof.
  intros Hget Hex Hwf Hok.
  unfold cycle, replace_collection, mbind, eff_bind, lift, axios_get_data.
  rewrite Hget, Hex. simpl.
  destruct (map_eff_well_formed mapper mapper_builds items (record (EvHttpGet url) w) Hwf)
    as (mapped & wm & ->).
  unfold deleteMany, insertMany. rewrite !Hok. do 2 eexists. reflexivity.
Qed.

End CycleRuns.

(** ** Forced refresh *)

Lemma assign_ids_keys mapped : forall n,
  Forall is_object mapped ->
  Forall (fun d => exists k, prop d "_id" = JObjectId k /\ (n <= k < n + length mapped)%nat)
         (assign_ids n mapped).
Proof.
  induction mapped as [| d r IH]; intros n Hobj; simpl; constructor.
  - inversion Hobj as [| ? ? [ps ->] _]; subst. exists n. simpl.
    rewrite lookup_set_prop. split; [reflexivity | lia].
  - inversion Hobj; subst. eapply Forall_impl; [apply (IH (S n)); assumption |].
    intros x (k & Hk & Hr). exists k. split; [exact Hk | simpl; lia].
Qed.

Lemma stored_form_defined (d : JSValue) : has_undefined d = false -> stored_form d = d.
Proof.
  destruct d as [| | | | | | ps | |]; try reflexivity. simpl. intros H. f_equal.
  induction ps as [| [k v] r IH]; [reflexivity |]. simpl in *.
  apply orb_false_elim in H as [Hv Hr]. rewrite (IH Hr).
  destruct v; try reflexivity. discriminate.
Qed.

Lemma map_stored_form_defined (docs : list JSValue) :
  forallb (fun d => negb (has_undefined d)) docs = true -> map stored_form docs = docs.
Proof.
  induction docs as [| d r IH]; [reflexivity |]. simpl. intros H.
  apply andb_prop in H as [Hd Hr]. apply negb_true_iff in Hd.
  now rewrite (stored_form_defined d Hd), (IH Hr).
Qed.

Lemma stored_between_stored_form w w' d :
  stored_between w w' d -> stored_between w w' (stored_form d).
Proof.
  intros (n & Hid & Hn). exists n. split; [| exact Hn].
  rewrite prop_stored_form; [exact Hid |]. rewrite Hid. discriminate.
Qed.

Lemma cycle_replaces env url extract mapper c w docs w' :
  record_builder mapper ->
  replace_collection env url extract mapper c w = (Ret docs, w') ->
  coll w' c = map stored_form docs /\ Forall (stored_between w w') docs.
Proof.
  intros Hb Hrun.
  destruct (cycle_returns env url extract mapper c Hb w docs w' Hrun)
    as (data & items & mapped & _ & _ & _ & Hobj & Hdocs & Hdb & _ & Hid).
  split.
  - unfold coll. rewrite Hdb. now rewrite lookup_insert_eq.
  - subst docs. unfold stored_between. rewrite Hid. now apply assign_ids_keys.
Qed.

Lemma cycle_replaces_stored env url extract mapper c w docs w' :
  record_builder mapper ->
  replace_collection env url extract mapper c w = (Ret docs, w') ->
  coll w' c = map stored_form docs
  /\ Forall (stored_between w w') (coll w' c)
  /\ (forallb (fun d => negb (has_undefined d)) docs = true -> coll w' c = docs).
Proof.
  intros Hb Hrun. destruct (cycle_replaces env url extract mapper c w docs w' Hb Hrun)
    as [Hcoll Hkeys].
  split; [exact Hcoll |]. split.
  - rewrite Hcoll. apply List.Forall_map.
    eapply List.Forall_impl; [| exact Hkeys]. intros d. apply stored_between_stored_form.
  - intros Hdef. now rewrite Hcoll, map_stored_form_defined.
Qed.

Lemma fetchTEDTalks_replaces env w talks w' :
  fetchTEDTalks env w = (Ret talks, w') ->
  coll w' "tedTalks" = map stored_form talks
  /\ Forall (stored_between w w') (coll w' "tedTalks")
  /\ (forallb (fun d => negb (has_undefined d)) talks = true -> coll w' "tedTalks" = talks).
Proof.
  intros Hrun. rewrite fetchTEDTalks_cycle in Hrun.
  eapply cycle_replaces_stored; [apply talk_record_builder | exact Hrun].
Qed.

Lemma refreshNGOData_replaces env w ngos w' :
  refreshNGOData env w = (Ret ngos, w') ->
  coll w' "ngos" = map stored_form ngos
  /\ Forall (stored_between w w') (coll w' "ngos")
  /\ (forallb (fun d => negb (has_undefined d)) ngos = true -> coll w' "ngos" = ngos).
Proof.
  intros Hrun. rewrite refreshNGOData_cycle in Hrun.
  eapply cycle_replaces_stored; [apply ngo_record_builder | exact Hrun].
Qed.

(** C2. When [fetchTEDTalks] (respectively [refreshNGOData]) completes, its
    collection is exactly the list of records the call returns, in their
    order and each as the driver writes it (a property the record leaves
    [undefined] is stored as [null]; a record without such a property is
    stored as it is), and every document of the collection was keyed
    during this call: nothing stored before it is left. *)
Theorem forceRefresh_replaces_collection (env : Env) (w : World) :
  (forall talks w',
     fetchTEDTalks env w = (Ret talks, w') ->
     coll w' "tedTalks" = map stored_form talks
     /\ Forall (stored_between w w') (coll w' "tedTalks")
     /\ (forallb (fun d => negb (has_undefined d)) talks = true ->
         coll w' "tedTalks" = talks))
  /\ (forall ngos w',
        refreshNGOData env w = (Ret ngos, w') ->
        coll w' "ngos" = map stored_form ngos
        /\ Forall (stored_between w w') (coll w' "ngos")
        /\ (forallb (fun d => negb (has_undefined d)) ngos = true ->
            coll w' "ngos" = ngos)).
Proof.
  split; intros docs w' Hrun.
  - exact (fetchTEDTalks_replaces env w docs w' Hrun).
  - exact (refreshNGOData_replaces env w docs w' Hrun).
Qed.

Lemma forceRefresh_replaces_collection_witness :
  let env := sample_env (upstream two_talks five_orgs) in
  let r := fetchTEDTalks env stale_world in
  length (returned r) = 2%nat
  /\ coll stale_world "tedTalks" = [stale_talk]
  /\ coll (snd r) "tedTalks" = map stored_form (returned r)
  /\ Forall (stored_between stale_world (snd r)) (coll (snd r) "tedTalks")
  /\ coll (snd r) "tedTalks" = returned r.
Proof.
  intros env r. split; [vm_compute; reflexivity |]. split; [reflexivity |].
  destruct (proj1 (forceRefresh_replaces_collection env stale_world) (returned r) (snd r))
    as (Hcoll & Hkeys & Hsame).
  - vm_compute. reflexivity.
  - split; [exact Hcoll |]. split; [exact Hkeys |]. apply Hsame. vm_compute. reflexivity.
Defined.

(** An upstream talk without [title]: the record the fetcher returns has
    [title] [undefined], the document in the collection has it [null]. *)
Example refresh_stores_null_for_a_missing_field :
  let env := sample_env (upstream (talks_payload [JObj [("id", JNum 1)]]) five_orgs) in
  let r := fetchTEDTalks env stale_world in
  map (fun d => prop d "title") (returned r) = [JUndefined]
  /\ map (fun d => prop d "title") (coll (snd r) "tedTalks") = [JNull]
  /\ coll (snd r) "tedTalks" = map stored_form (returned r).
Proof. repeat split; vm_compute; reflexivity. Qed.

(** ** Idempotence of the forced refresh of talks *)

Lemma talk_record_content env talk w d w' (x : JSValue) :
  talk_record env talk w = (Ret d, w') ->
  talk_content (stored_form (js_set d "_id" x))
  = map (fun p => (fst p, stored_value (snd p))) (source_content talk)
  /\ talk_shaped (stored_form (js_set d "_id" x)).
Proof.
  destruct talk; simpl; try discriminate; intros H; injection H as <- _;
    (split; [reflexivity | eexists; split; reflexivity]).
Qed.

Lemma map_eff_talk_content env items : forall w mapped w' n,
  map_eff (talk_record env) items w = (Ret mapped, w') ->
  map talk_content (map stored_form (assign_ids n mapped))
  = map (fun talk => map (fun p => (fst p, stored_value (snd p))) (source_content talk)) items
  /\ Forall talk_shaped (map stored_form (assign_ids n mapped)).
Proof.
  induction items as [| x r IH]; intros w mapped w' n H; simpl in H.
  - injection H as <- _. split; [reflexivity | constructor].
  - unfold mbind, eff_bind in H.
    destruct (talk_record env x w) as [[d | e] w1] eqn:Hx; [| discriminate].
    destruct (map_eff (talk_record env) r w1) as [[ys | e] w2] eqn:Hr; [| discriminate].
    injection H as <- _.
    destruct (talk_record_content env x w d w1 (JObjectId n) Hx) as [Hc Hs].
    destruct (IH w1 ys w2 (S n) Hr) as [IHc IHs].
    cbn [assign_ids map]. rewrite Hc, IHc. split; [reflexivity | now constructor].
Qed.

(** C7. Two forced refreshes of the talks in a row, with the upstream
    giving the same answer to both, leave the collection with the same
    number of records and, record by record, the same content; only the
    [createdAt] stamps (and the storage keys given on insert) are new. *)
Theorem forceRefresh_talks_idempotent
    (env : Env) (w w1 w2 : World) (t1 t2 : list JSValue) :
  axios_get env (ticks w1) TED_URL = axios_get env (ticks w) TED_URL ->
  fetchTEDTalks env w = (Ret t1, w1) ->
  fetchTEDTalks env w1 = (Ret t2, w2) ->
  length (coll w2 "tedTalks") = length (coll w1 "tedTalks")
  /\ map talk_content (coll w2 "tedTalks") = map talk_content (coll w1 "tedTalks")
  /\ Forall talk_shaped (coll w1 "tedTalks")
  /\ Forall talk_shaped (coll w2 "tedTalks").
Proof.
  intros Hstable H1 H2.
  rewrite fetchTEDTalks_cycle in H1, H2.
  pose proof (cycle_replaces _ _ _ _ _ _ _ _ (talk_record_builder env) H1) as [C1 _].
  pose proof (cycle_replaces _ _ _ _ _ _ _ _ (talk_record_builder env) H2) as [C2 _].
  apply (cycle_returns _ _ _ _ _ (talk_record_builder env)) in H1
    as (d1 & i1 & m1 & G1 & E1 & [wm1 M1] & _ & D1 & _).
  apply (cycle_returns _ _ _ _ _ (talk_record_builder env)) in H2
    as (d2 & i2 & m2 & G2 & E2 & [wm2 M2] & _ & D2 & _).
  rewrite Hstable, G1 in G2. injection G2 as <-.
  rewrite E1 in E2. injection E2 as <-.
  destruct (map_eff_talk_content env _ _ _ _ (next_id w) M1) as [K1 S1].
  destruct (map_eff_talk_content env _ _ _ _ (next_id w1) M2) as [K2 S2].
  rewrite C1, C2, D1, D2.
  assert (Hc : map talk_content (map stored_form (assign_ids (next_id w1) m2))
               = map talk_content (map stored_form (assign_ids (next_id w) m1)))
    by now rewrite K1, K2.
  split; [| split; [exact Hc | split; assumption]].
  apply (f_equal (@length _)) in Hc. rewrite !length_map in Hc. now rewrite !length_map.
Qed.

Lemma forceRefresh_talks_idempotent_witness :
  let env := sample_env (upstream two_talks five_orgs) in
  let r1 := fetchTEDTalks env stale_world in
  let r2 := fetchTEDTalks env (snd r1) in
  length (coll (snd r1) "tedTalks") = 2%nat
  /\ length (coll (snd r2) "tedTalks") = length (coll (snd r1) "tedTalks")
  /\ map talk_content (coll (snd r2) "tedTalks") = map talk_content (coll (snd r1) "tedTalks").
Proof.
  intros env r1 r2.
  destruct (forceRefresh_talks_idempotent env stale_world (snd r1) (snd r2)
              (returned r1) (returned r2)) as (Hlen & Hcontent & _).
  - reflexivity.
  - vm_compute. reflexivity.
  - vm_compute. reflexivity.
  - split; [vm_compute; reflexivity |]. split; assumption.
Defined.

(** ** Decimal numerals in query strings *)

Lemma take_digits_chars u : take_digits 10 (chars_of u) = (uint_digits u, []).
Proof.
  unfold chars_of. induction u; [reflexivity | ..].
  all: cbn [NilEmpty.string_of_uint list_ascii_of_string take_digits].
  all: rewrite IHu; reflexivity.
Qed.

Lemma digits_value_acc u : forall acc,
  fold_left (fun a d => (a * 10 + d)%nat) (uint_digits u) acc = Nat.of_uint_acc u acc.
Proof.
  induction u; intros acc; simpl; try reflexivity;
    rewrite IHu, Nat.tail_mul_spec; f_equal; lia.
Qed.

Lemma digits_value_uint u : digits_value 10 (uint_digits u) = Nat.of_uint u.
Proof. apply digits_value_acc. Qed.

Lemma chars_not_ws u : Forall (fun a => is_ws a = false) (chars_of u).
Proof.
  unfold chars_of. induction u; simpl; constructor; solve [reflexivity | assumption].
Qed.

Lemma skip_ws_id l : Forall (fun a => is_ws a = false) l -> skip_ws l = l.
Proof. intros H. destruct H as [| a r Ha _]; simpl; [reflexivity | now rewrite Ha]. Qed.

Lemma trim_ws_chars u : trim_ws (chars_of u) = chars_of u.
Proof.
  unfold trim_ws. rewrite (skip_ws_id (chars_of u)) by apply chars_not_ws.
  rewrite skip_ws_id by (apply List.Forall_rev, chars_not_ws).
  apply rev_involutive.
Qed.

Lemma parseInt_uint u :
  u <> Decimal.Nil ->
  parseInt (NilEmpty.string_of_uint u) = Some (Z.of_nat (Nat.of_uint u)).
Proof.
  intros Hu. unfold parseInt. fold (chars_of u).
  rewrite (skip_ws_id (chars_of u)) by apply chars_not_ws.
  assert (Hs : take_sign (chars_of u) = (false, chars_of u)).
  { destruct u; reflexivity. }
  rewrite Hs.
  assert (Hp : match chars_of u with
               | "0"%char :: "x"%char :: r | "0"%char :: "X"%char :: r => (16%nat, r)
               | _ => (10%nat, chars_of u)
               end = (10%nat, chars_of u)).
  { destruct u as [| u' | ? | ? | ? | ? | ? | ? | ? | ? | ?]; try reflexivity. destruct u'; reflexivity. }
  rewrite Hp, take_digits_chars, digits_value_uint.
  destruct u; try reflexivity. contradiction.
Qed.

Lemma string_to_integer_uint u :
  u <> Decimal.Nil ->
  string_to_integer (NilEmpty.string_of_uint u) = Fin (Z.of_nat (Nat.of_uint u)).
Proof.
  intros Hu. unfold string_to_integer. fold (chars_of u). rewrite trim_ws_chars.
  assert (Hp : prefixed_literal (chars_of u) = None).
  { destruct u as [| u' | ? | ? | ? | ? | ? | ? | ? | ? | ?]; try reflexivity. destruct u'; reflexivity. }
  assert (Hs : take_sign (chars_of u) = (false, chars_of u)).
  { destruct u; reflexivity. }
  assert (Hi : String.eqb (string_of_list_ascii (chars_of u)) "Infinity" = false).
  { destruct u; reflexivity. }
  assert (Hd : decimal_literal (chars_of u) = Some (Z.of_nat (Nat.of_uint u))).
  { unfold decimal_literal. rewrite take_digits_chars. rewrite app_nil_r.
    destruct (uint_digits u) as [| d ds] eqn:E; [destruct u; [contradiction | discriminate ..] |].
    rewrite <- E, digits_value_uint. simpl. f_equal. lia. }
  rewrite Hp, Hs, Hi, Hd.
  destruct u; try contradiction; reflexivity.
Qed.

Lemma to_little_uint_not_nil n : forall acc,
  acc <> Decimal.Nil -> Nat.to_little_uint n acc <> Decimal.Nil.
Proof.
  induction n as [| n IH]; intros acc H; simpl; [exact H |].
  apply IH. destruct acc; discriminate.
Qed.

Lemma to_uint_not_nil n : Nat.to_uint n <> Decimal.Nil.
Proof.
  unfold Nat.to_uint. intros H. apply DecimalFacts.rev_nil_inv in H.
  revert H. apply to_little_uint_not_nil. discriminate.
Qed.

Lemma parseInt_numeral n : parseInt (numeral n) = Some (Z.of_nat n).
Proof.
  unfold numeral. rewrite parseInt_uint by apply to_uint_not_nil.
  now rewrite DecimalNat.Unsigned.of_to.
Qed.

Lemma string_to_integer_numeral n : string_to_integer (numeral n) = Fin (Z.of_nat n).
Proof.
  unfold numeral. rewrite string_to_integer_uint by apply to_uint_not_nil.
  now rewrite DecimalNat.Unsigned.of_to.
Qed.


(** ** Reading the cache *)

Lemma requested_limit_reads req d n :
  requested_limit req d n ->
  parseInt_limit (query_limit req (Z.of_nat d)) = Some (Z.of_nat n)
  /\ slice_end (query_limit req (Z.of_nat d)) = Fin (Z.of_nat n).
Proof.
  unfold query_limit. intros [-> | [-> ->]]; simpl.
  - now rewrite parseInt_numeral, string_to_integer_numeral.
  - split; reflexivity.
Qed.

Lemma apply_limit_nil lim : apply_limit lim [] = [].
Proof.
  destruct lim as [n |]; simpl; [| reflexivity].
  destruct (n =? 0); [reflexivity | apply firstn_nil].
Qed.

Lemma cached_indexed c q :
  cached c ->
  match q_text q with Some _ => bool_decide (is_Some (text_index c)) | None => true end = true.
Proof. intros [-> | ->]; destruct (q_text q); reflexivity. Qed.


Lemma find_inv env c q lim w docs w1 :
  find env c q lim w = (Ret docs, w1) ->
  w1 = record (EvFind c) w
  /\ docs = apply_limit lim (sort_desc (filter (fun d => matches env c q d = true) (coll w c))).
Proof.
  unfold find. destruct (_ && _); [| discriminate].
  intros H. injection H as <- <-. split; reflexivity.
Qed.

Lemma find_outcome env c q lim w :
  exists o, find env c q lim w = (o, record (EvFind c) w).
Proof. unfold find. destruct (_ && _); eexists; reflexivity. Qed.

Lemma In_insert_desc d l x : In x (insert_desc d l) <-> x = d \/ In x l.
Proof.
  induction l as [| y r IH]; simpl.
  - intuition.
  - destruct (newer (created_key y) (created_key d)); simpl; rewrite ?IH; intuition.
Qed.

Lemma In_sort_desc l x : In x (sort_desc l) <-> In x l.
Proof.
  induction l as [| y r IH]; simpl; [reflexivity |].
  rewrite In_insert_desc, IH. intuition.
Qed.

Lemma sort_desc_nonempty l : l <> [] -> sort_desc l <> [].
Proof.
  destruct l as [| y r]; [congruence |]. intros _ H.
  assert (Hin : In y (sort_desc (y :: r))) by (apply In_sort_desc; now left).
  rewrite H in Hin. destruct Hin.
Qed.

Lemma apply_limit_nonempty lim l : l <> [] -> apply_limit lim l <> [].
Proof.
  intros Hl. destruct lim as [n |]; simpl; [| exact Hl].
  destruct (Z.eqb_spec n 0) as [| Hn]; [exact Hl |].
  destruct l as [| y r]; [congruence |].
  destruct (Z.abs_nat n) eqn:E; [lia | discriminate].
Qed.

Lemma In_firstn_In {A} (x : A) n : forall l, In x (firstn n l) -> In x l.
Proof.
  induction n as [| n IH]; intros [| y r]; simpl; try tauto.
  intros [-> | H]; [now left | right; now apply IH].
Qed.

Lemma In_apply_limit lim l x : In x (apply_limit lim l) -> In x l.
Proof.
  destruct lim as [n |]; simpl; [| trivial].
  destruct (n =? 0); [trivial | apply In_firstn_In].
Qed.

Lemma filter_unfiltered env c (l : list JSValue) :
  filter (fun d => matches env c query_all d = true) l = l.
Proof.
  induction l as [| d r IH]; [reflexivity |].
  rewrite filter_cons. destruct (decide _) as [_ | Hn]; [now rewrite IH |].
  exfalso. apply Hn. reflexivity.
Qed.

Lemma In_found env c q lim w docs w1 x :
  find env c q lim w = (Ret docs, w1) -> In x docs -> In x (coll w c).
Proof.
  intros H Hin. apply find_inv in H as [_ ->].
  apply In_apply_limit in Hin. apply (proj1 (In_sort_desc _ _)) in Hin.
  apply (proj2 (list_elem_of_In _ _)) in Hin.
  apply (proj1 (list_elem_of_filter _ _ _)) in Hin as [_ Hin].
  now apply list_elem_of_In.
Qed.

(** C1, as stated, fails: the cache holds a talk, the search matches none
    of the cached titles, and the handler runs the fetcher (one GET to the
    upstream, delete-all, bulk insert) and answers with the fresh talks. *)
Lemma content_search_miss_runs_fetcher :
  let env := sample_env (upstream two_talks five_orgs) in
  let req := request [("search", "quantum")] (JObj []) [] in
  let r := get_api_content env req stale_world in
  coll stale_world "tedTalks" = [stale_talk]
  /\ In (EvHttpGet TED_URL) (log (snd r))
  /\ fst r = Ret (response 200 (JArr (coll (snd r) "tedTalks")))
  /\ ~ In stale_talk (coll (snd r) "tedTalks").
Proof.
  intros env req r. split; [reflexivity |].
  split; [vm_compute; tauto |].
  split; [vm_compute; reflexivity |].
  vm_compute. intros [H | [H | []]]; discriminate H.
Qed.

(** C1, amended. When the query the handler builds (the text filter of a
    non-empty [search], limited and sorted) finds at least one cached talk,
    the handler answers with exactly what it found, all of it from the
    cache, and does nothing but that one read: no fetch, no write.  This is
    the case whenever the cache is non-empty and [search] is absent or
    empty: then the only effect is the read, and if the storage serves it
    the answer is a non-empty list of cached talks. *)
Theorem content_served_from_cache (env : Env) (req : Request) (w : World) :
  (forall talks w1,
     find env "tedTalks" (content_query req) (parseInt_limit (query_limit req 20)) w
       = (Ret talks, w1) ->
     talks <> [] ->
     get_api_content env req w
       = (Ret (response 200 (JArr talks)), record (EvFind "tedTalks") w)
     /\ Forall (fun d => In d (coll w "tedTalks")) talks)
  /\ (coll w "tedTalks" <> [] ->
      truthy_param (query req !! "search") = None ->
      exists resp,
        get_api_content env req w = (Ret resp, record (EvFind "tedTalks") w)
        /\ (storage_ok env (ticks w)
              (OpFind "tedTalks" (parseInt_limit (query_limit req 20))) = true ->
            exists talks,
              resp = response 200 (JArr talks) /\ talks <> []
              /\ Forall (fun d => In d (coll w "tedTalks")) talks)).
Proof.
  assert (Hhit : forall talks w1,
     find env "tedTalks" (content_query req) (parseInt_limit (query_limit req 20)) w
       = (Ret talks, w1) ->
     talks <> [] ->
     get_api_content env req w
       = (Ret (response 200 (JArr talks)), record (EvFind "tedTalks") w)
     /\ Forall (fun d => In d (coll w "tedTalks")) talks).
  { intros talks w1 Hfind Hne. split.
    - destruct (find_inv _ _ _ _ _ _ _ Hfind) as [-> _].
      unfold get_api_content, try_catch, mbind, eff_bind. rewrite Hfind.
      destruct talks as [| d r]; [congruence | reflexivity].
    - apply List.Forall_forall. intros x Hx. eapply In_found; eassumption. }
  split; [exact Hhit |].
  intros Hcache Hsearch.
  destruct (find_outcome env "tedTalks" (content_query req)
              (parseInt_limit (query_limit req 20)) w) as [[talks | e] Hfind].
  - assert (Hne : talks <> []).
    { destruct (find_inv _ _ _ _ _ _ _ Hfind) as [_ ->].
      unfold content_query. rewrite Hsearch. fold query_all.
      rewrite filter_unfiltered.
      now apply apply_limit_nonempty, sort_desc_nonempty. }
    destruct (Hhit talks _ Hfind Hne) as [Hrun Hin].
    eexists. split; [exact Hrun |]. intros _. exists talks. auto.
  - unfold get_api_content, try_catch, mbind, eff_bind. rewrite Hfind.
    eexists. split; [reflexivity |].
    intros Hok. unfold find in Hfind. rewrite Hok in Hfind.
    unfold content_query in Hfind. rewrite Hsearch in Hfind. discriminate Hfind.
Qed.

Lemma content_served_from_cache_witness :
  let env := sample_env offline in
  let req := request [("search", "ocean")] (JObj []) [] in
  get_api_content env req stale_world
  = (Ret (response 200 (JArr [stale_talk])), record (EvFind "tedTalks") stale_world)
  /\ Forall (fun d => In d (coll stale_world "tedTalks")) [stale_talk].
Proof.
  intros env req.
  apply (proj1 (content_served_from_cache env req stale_world)
           [stale_talk] (record (EvFind "tedTalks") stale_world)).
  - vm_compute. reflexivity.
  - discriminate.
Defined.

(** ** Refresh on an empty cache *)




(** ** Upstream failure during a read *)

Lemma read_refresh_failure env w w1 url extract mapper c
    (handler : Eff Response) (fetcher : Eff (list JSValue)) q lim sl msg :
  record_builder mapper ->
  (forall w0, fetcher w0 = replace_collection env url extract mapper c w0) ->
  handler = try_catch
              (docs ← find env c q lim;
               if (length docs =? 0)%nat then
                 fresh ← fetcher; respond 200 (JArr (slice0 fresh sl))
               else respond 200 (JArr docs))
              (fun err => respond 500 (error_body msg)) ->
  find env c q lim w = (Ret [], w1) ->
  fetch_fails extract (axios_get env (ticks w1) url) = true ->
  exists w',
    handler w = (Ret (fetch_failed msg), w')
    /\ db w' = db w
    /\ log w' = (log w ++ [EvFind c; EvHttpGet url])%list.
Proof.
  intros Hb Hf -> Hfind Hfail.
  destruct (cycle_upstream_failure env url extract mapper c Hb w1 Hfail)
    as (e & w' & Hrun & Hdb & Hlog & _).
  destruct (find_inv _ _ _ _ _ _ _ Hfind) as [Hw1 _].
  exists w'. unfold try_catch, mbind, eff_bind. rewrite Hfind. simpl.
  rewrite Hf, Hrun. split; [reflexivity |].
  rewrite Hdb, Hlog, Hw1. simpl. split; [reflexivity |]. now rewrite <- app_assoc.
Qed.

(** C4. A read whose query finds nothing triggers the refresh; if the
    upstream fetch then fails (the GET is rejected or the payload is
    malformed), the handler answers 500, has made exactly one GET (no
    retry), and the database is exactly as it was before the request.  For
    [GET /api/content] and [GET /api/action-hub]. *)
Theorem read_refresh_upstream_failure (env : Env) (req : Request) (w w1 : World) :
  (find env "tedTalks" (content_query req) (parseInt_limit (query_limit req 20)) w
     = (Ret [], w1) ->
   fetch_fails talks_of (axios_get env (ticks w1) TED_URL) = true ->
   exists w',
     get_api_content env req w = (Ret (fetch_failed "Failed to fetch content"), w')
     /\ db w' = db w
     /\ log w' = (log w ++ [EvFind "tedTalks"; EvHttpGet TED_URL])%list)
  /\ (find env "ngos" (action_hub_query req) (parseInt_limit (query_limit req 50)) w
        = (Ret [], w1) ->
      fetch_fails organizations_of (axios_get env (ticks w1) NGO_URL) = true ->
      exists w',
        get_api_action_hub env req w = (Ret (fetch_failed "Failed to fetch NGOs"), w')
        /\ db w' = db w
        /\ log w' = (log w ++ [EvFind "ngos"; EvHttpGet NGO_URL])%list).
Proof.
  split; intros Hfind Hfail.
  - eapply read_refresh_failure;
      [apply (talk_record_builder env) | apply fetchTEDTalks_cycle | reflexivity
      | exact Hfind | exact Hfail].
  - eapply read_refresh_failure;
      [apply (ngo_record_builder env) | apply refreshNGOData_cycle | reflexivity
      | exact Hfind | exact Hfail].
Qed.

Lemma read_refresh_upstream_failure_witness :
  let req := request [("search", "quantum")] (JObj []) [] in
  let w1 := record (EvFind "tedTalks") stale_world in
  (exists w',
     get_api_content (sample_env offline) req stale_world
       = (Ret (fetch_failed "Failed to fetch content"), w')
     /\ db w' = db stale_world
     /\ log w' = (log stale_world ++ [EvFind "tedTalks"; EvHttpGet TED_URL])%list)
  /\ (exists w',
        get_api_content (sample_env (upstream broken_talks five_orgs)) req stale_world
          = (Ret (fetch_failed "Failed to fetch content"), w')
        /\ db w' = db stale_world
        /\ log w' = (log stale_world ++ [EvFind "tedTalks"; EvHttpGet TED_URL])%list).
Proof.
  intros req w1. split.
  - apply (proj1 (read_refresh_upstream_failure (sample_env offline) req stale_world w1)).
    + vm_compute. reflexivity.
    + reflexivity.
  - apply (proj1 (read_refresh_upstream_failure
                    (sample_env (upstream broken_talks five_orgs)) req stale_world w1)).
    + vm_compute. reflexivity.
    + reflexivity.
Defined.

(** ** The two revisions of the content route *)

(** The second revision of [GET /api/content] leaves the same world as the
    first and gives the same answer, except that its 500 body also carries
    the error's message. *)
Remark get_api_content_rev2_agrees (env : Env) (req : Request) (w : World) :
  snd (get_api_content_rev2 env req w) = snd (get_api_content env req w)
  /\ exists r1 r2,
       fst (get_api_content env req w) = Ret r1
       /\ fst (get_api_content_rev2 env req w) = Ret r2
       /\ status r2 = status r1
       /\ (status r1 <> 500%nat -> r2 = r1).
Proof.
  unfold get_api_content, get_api_content_rev2, try_catch, mbind, eff_bind.
  destruct (find env "tedTalks" _ _ w) as [[talks | e] w1].
  - destruct (length talks =? 0)%nat.
    + destruct (fetchTEDTalks env w1) as [[fresh | e] w2]; simpl;
        (split; [reflexivity |]); do 2 eexists;
        (split; [reflexivity |]); (split; [reflexivity |]);
        (split; [reflexivity |]); simpl; congruence.
    + simpl. split; [reflexivity |]. do 2 eexists. repeat (split; [reflexivity |]). congruence.
  - simpl. split; [reflexivity |]. do 2 eexists.
    split; [reflexivity |]. split; [reflexivity |]. split; [reflexivity |]. simpl. congruence.
Qed.

Example to_string_examples (env : Env) :
  to_string env (JNum 0) = "0" /\ to_string env (JNum (-12)) = "-12"
  /\ to_string env (JArr [JNum 1; JNull; JStr "a"]) = "1,,a"
  /\ to_string env JUndefined = "undefined".
Proof. repeat split; reflexivity. Qed.

(** * Further properties of the program *)

(** ** Listings: order and bounds of a cache read *)

Lemma not_newer_trans a b c : not_newer a b -> not_newer b c -> not_newer a c.
Proof.
  unfold not_newer, newer.
  destruct (created_key a), (created_key b), (created_key c);
    intros H1 H2; try reflexivity; try discriminate.
  apply Z.ltb_ge. apply Z.ltb_ge in H1, H2. lia.
Qed.

Lemma newer_not_newer a b :
  newer (created_key a) (created_key b) = true -> not_newer a b.
Proof.
  unfold not_newer, newer.
  destruct (created_key a), (created_key b); intros H; try reflexivity; try discriminate.
  apply Z.ltb_ge. apply Z.ltb_lt in H. lia.
Qed.

Lemma insert_desc_sorted d l : newest_first l -> newest_first (insert_desc d l).
Proof.
  unfold newest_first. induction l as [| x r IH]; intros Hs; simpl.
  - constructor; constructor.
  - apply StronglySorted_inv in Hs as [Hr Hx].
    destruct (newer (created_key x) (created_key d)) eqn:E.
    + constructor; [now apply IH |].
      apply List.Forall_forall. intros y Hy. apply In_insert_desc in Hy as [-> | Hy].
      * now apply newer_not_newer.
      * rewrite List.Forall_forall in Hx. now apply Hx.
    + constructor; [now constructor |].
      constructor; [exact E |].
      eapply List.Forall_impl; [| exact Hx].
      intros y Hy. eapply not_newer_trans; [exact E | exact Hy].
Qed.

Lemma sort_desc_sorted l : newest_first (sort_desc l).
Proof.
  induction l as [| x r IH]; simpl; [constructor | now apply insert_desc_sorted].
Qed.

Lemma insert_desc_perm d l : Permutation (insert_desc d l) (d :: l).
Proof.
  induction l as [| x r IH]; simpl; [reflexivity |].
  destruct (newer (created_key x) (created_key d)); [| reflexivity].
  rewrite IH. apply perm_swap.
Qed.

Lemma sort_desc_perm l : Permutation (sort_desc l) l.
Proof.
  induction l as [| x r IH]; simpl; [reflexivity |].
  rewrite insert_desc_perm. now constructor.
Qed.

Lemma firstn_sorted n : forall l, newest_first l -> newest_first (firstn n l).
Proof.
  unfold newest_first.
  induction n as [| n IH]; intros [| x r] Hs; simpl; try constructor.
  - apply IH. now apply StronglySorted_inv in Hs.
  - apply StronglySorted_inv in Hs as [_ Hx].
    apply List.Forall_forall. intros y Hy. rewrite List.Forall_forall in Hx.
    apply Hx. eapply In_firstn_In. exact Hy.
Qed.

Lemma sorted_split n : forall l x y,
  newest_first l -> In x (firstn n l) -> In y (skipn n l) -> not_newer x y.
Proof.
  unfold newest_first.
  induction n as [| n IH]; intros [| a r] x y Hs Hx Hy; simpl in *; try tauto.
  apply StronglySorted_inv in Hs as [Hr Ha].
  destruct Hx as [<- | Hx].
  - rewrite List.Forall_forall in Ha. apply Ha.
    rewrite <- (firstn_skipn n r). apply in_or_app. now right.
  - now apply (IH r).
Qed.

Lemma apply_limit_sorted lim l : newest_first l -> newest_first (apply_limit lim l).
Proof.
  intros Hs. destruct lim as [n |]; simpl; [| exact Hs].
  destruct (n =? 0); [exact Hs | now apply firstn_sorted].
Qed.

Lemma find_newest_first env c q lim w docs w1 :
  find env c q lim w = (Ret docs, w1) -> newest_first docs.
Proof.
  intros H. apply find_inv in H as [_ ->].
  apply apply_limit_sorted, sort_desc_sorted.
Qed.

Lemma find_matching env c q lim w docs w1 :
  find env c q lim w = (Ret docs, w1) ->
  Forall (fun d => In d (coll w c) /\ matches env c q d = true) docs.
Proof.
  intros H. apply find_inv in H as [_ ->].
  apply List.Forall_forall. intros x Hin.
  apply In_apply_limit in Hin. apply (proj1 (In_sort_desc _ _)) in Hin.
  apply (proj2 (list_elem_of_In _ _)) in Hin.
  apply (proj1 (list_elem_of_filter _ _ _)) in Hin as [Hm Hin].
  split; [now apply list_elem_of_In | exact Hm].
Qed.

(** ** Relations every step of a run keeps *)

Section Keeps.

Context (R : World -> World -> Prop) `{!RunRel R}.

Lemma keeps_ret {A} (a : A) : keeps R (mret a).
Proof. intros w o w' H. injection H as _ <-. apply rr_refl. Qed.

Lemma keeps_throw {A} (e : Exn) : keeps R (throw (A := A) e).
Proof. intros w o w' H. injection H as _ <-. apply rr_refl. Qed.

Lemma keeps_lift {A} (x : Outcome A) : keeps R (lift x).
Proof. intros w o w' H. injection H as _ <-. apply rr_refl. Qed.

Lemma keeps_respond code payload : keeps R (respond code payload).
Proof. apply keeps_ret. Qed.

Lemma keeps_bind {A B} (m : Eff A) (f : A -> Eff B) :
  keeps R m -> (forall a, keeps R (f a)) -> keeps R (m ≫= f).
Proof.
  intros Hm Hf w o w' H. unfold mbind, eff_bind in H.
  destruct (m w) as [[a | e] w1] eqn:E.
  - eapply rr_trans; [eapply Hm; exact E | eapply Hf; exact H].
  - injection H as _ <-. eapply Hm. exact E.
Qed.

Lemma keeps_try_catch {A} (m : Eff A) (h : Exn -> Eff A) :
  keeps R m -> (forall e, keeps R (h e)) -> keeps R (try_catch m h).
Proof.
  intros Hm Hh w o w' H. unfold try_catch in H.
  destruct (m w) as [[a | e] w1] eqn:E.
  - injection H as _ <-. eapply Hm. exact E.
  - eapply rr_trans; [eapply Hm; exact E | eapply Hh; exact H].
Qed.

Lemma keeps_map_eff {A B} (f : A -> Eff B) l :
  (forall x, keeps R (f x)) -> keeps R (map_eff f l).
Proof.
  intros Hf. induction l as [| x r IH]; simpl.
  - apply keeps_ret.
  - apply keeps_bind; [apply Hf |]. intros y.
    apply keeps_bind; [exact IH |]. intros ys. apply keeps_ret.
Qed.

Lemma keeps_js_array_map v f : (forall x, keeps R (f x)) -> keeps R (js_array_map v f).
Proof.
  intros Hf. destruct v; simpl; try apply keeps_throw. now apply keeps_map_eff.
Qed.

Lemma keeps_new_Date env : keeps R (new_Date env).
Proof. intros w o w' H. injection H as _ <-. apply rr_tick. Qed.

Lemma keeps_find env c q lim : ok_event (EvFind c) -> keeps R (find env c q lim).
Proof.
  intros Hev w o w' H. destruct (find_outcome env c q lim w) as [o' Ho].
  rewrite Ho in H. injection H as _ <-. now apply rr_record.
Qed.

Lemma keeps_axios_get_data env url : ok_event (EvHttpGet url) -> keeps R (axios_get_data env url).
Proof.
  intros Hev w o w' H. unfold axios_get_data in H.
  destruct (axios_get env (ticks w) url); injection H as _ <-; now apply rr_record.
Qed.

Lemma keeps_pusher_trigger ch ev payload :
  ok_event (EvPublish ch ev payload) -> keeps R (pusher_trigger ch ev payload).
Proof. intros Hev w o w' H. injection H as _ <-. now apply rr_record. Qed.

Lemma keeps_deleteMany env c :
  ok_event (EvDeleteMany c) -> (forall old, ok_put c old []) -> keeps R (deleteMany env c).
Proof.
  intros Hev Hput w o w' H. unfold deleteMany in H.
  destruct (storage_ok env (ticks w) (OpDeleteMany c)); injection H as _ <-.
  - eapply rr_trans; [apply rr_record, Hev | apply rr_put, Hput].
  - now apply rr_record.
Qed.

Lemma keeps_insertMany env c docs :
  ok_event (EvInsertMany c docs) -> (forall old new, ok_put c old (old ++ new)) ->
  keeps R (insertMany env c docs).
Proof.
  intros Hev Hput w o w' H. unfold insertMany in H.
  destruct (storage_ok env (ticks w) (OpInsertMany c (length docs))); injection H as _ <-.
  - eapply rr_trans; [apply rr_record, Hev |].
    eapply rr_trans; [apply rr_put, Hput | apply rr_bump].
  - now apply rr_record.
Qed.

Lemma keeps_insertOne env c doc :
  ok_event (EvInsertOne c doc) -> (forall old new, ok_put c old (old ++ new)) ->
  keeps R (insertOne env c doc).
Proof.
  intros Hev Hput w o w' H. unfold insertOne in H.
  destruct (storage_ok env (ticks w) (OpInsertOne c)); injection H as _ <-.
  - eapply rr_trans; [apply rr_record, Hev |].
    eapply rr_trans; [apply rr_put, Hput | apply rr_bump].
  - now apply rr_record.
Qed.

Lemma keeps_result_ops_0 env stored : keeps R (result_ops_0 env stored).
Proof.
  unfold result_ops_0. destruct (insert_result_has_ops env); [apply keeps_ret | apply keeps_throw].
Qed.

End Keeps.

Lemma coll_tick c w : coll (tick w) c = coll w c.
Proof. reflexivity. Qed.

Lemma coll_put_coll_ne c c' docs w : c' <> c -> coll (put_coll c' docs w) c = coll w c.
Proof. intros H. unfold coll, put_coll; simpl. now rewrite lookup_insert_ne. Qed.

Section CollectionRelations.

Variable c : string.

Lemma keeps_coll_trans w1 w2 w3 : keeps_coll c w1 w2 -> keeps_coll c w2 w3 -> keeps_coll c w1 w3.
Proof. unfold keeps_coll. congruence. Qed.

Lemma keeps_coll_put c' docs w : c' <> c -> keeps_coll c w (put_coll c' docs w).
Proof. intros H. now apply coll_put_coll_ne. Qed.

Lemma grows_coll_same w w' : db w' = db w -> grows_coll c w w'.
Proof. intros H. unfold grows_coll, coll. now rewrite H. Qed.

Lemma grows_coll_trans w1 w2 w3 : grows_coll c w1 w2 -> grows_coll c w2 w3 -> grows_coll c w1 w3.
Proof. unfold grows_coll. intros H1 H2. now transitivity (coll w2 c). Qed.

Lemma grows_coll_put c' docs w :
  c' <> c \/ coll w c' `prefix_of` docs -> grows_coll c w (put_coll c' docs w).
Proof.
  unfold grows_coll. destruct (decide (c' = c)) as [-> | Hne].
  - intros [H | H]; [contradiction |]. now rewrite coll_put_coll_eq.
  - intros _. now rewrite coll_put_coll_ne.
Qed.

End CollectionRelations.

#[global] Instance keeps_coll_rel (c : string) : RunRel (keeps_coll c) := {|
  ok_event := fun _ => True;
  ok_put := fun c' _ _ => c' <> c;
  rr_refl := fun w => eq_refl;
  rr_trans := keeps_coll_trans c;
  rr_tick := fun w => eq_refl;
  rr_bump := fun k w => eq_refl;
  rr_record := fun ev w _ => eq_refl;
  rr_put := keeps_coll_put c
|}.

#[global] Instance grows_coll_rel (c : string) : RunRel (grows_coll c) := {|
  ok_event := fun _ => True;
  ok_put := fun c' old new => c' <> c \/ old `prefix_of` new;
  rr_refl := fun w => grows_coll_same c w w eq_refl;
  rr_trans := grows_coll_trans c;
  rr_tick := fun w => grows_coll_same c w (tick w) eq_refl;
  rr_bump := fun k w => grows_coll_same c w (bump_ids k w) eq_refl;
  rr_record := fun ev w _ => grows_coll_same c w (record ev w) eq_refl;
  rr_put := grows_coll_put c
|}.

Section Emits.

Variable P : Event -> bool.

Lemma emits_refl w : emits P w w.
Proof. exists []. split; [now rewrite app_nil_r | reflexivity]. Qed.

Lemma emits_trans w1 w2 w3 : emits P w1 w2 -> emits P w2 w3 -> emits P w1 w3.
Proof.
  intros (e1 & H1 & P1) (e2 & H2 & P2). exists (e1 ++ e2)%list. split.
  - now rewrite H2, H1, app_assoc.
  - now rewrite forallb_app, P1, P2.
Qed.

Lemma emits_record ev w : P ev = true -> emits P w (record ev w).
Proof. intros H. exists [ev]. split; [reflexivity | simpl; now rewrite H]. Qed.

End Emits.

#[global] Instance emits_rel (P : Event -> bool) : RunRel (emits P) := {|
  ok_event := fun ev => P ev = true;
  ok_put := fun _ _ _ => True;
  rr_refl := emits_refl P;
  rr_trans := emits_trans P;
  rr_tick := emits_refl P;
  rr_bump := fun k => emits_refl P;
  rr_record := emits_record P;
  rr_put := fun c docs w _ => emits_refl P w
|}.

(** Break a handler into its steps; what is left are the conditions on the
    events it records and the writes it makes. *)
Ltac keeps_step R :=
  first
    [ apply (keeps_ret R) | apply (keeps_respond R) | apply (keeps_throw R)
    | apply (keeps_lift R) | apply (keeps_new_Date R) | apply (keeps_result_ops_0 R)
    | apply (keeps_bind R) | apply (keeps_try_catch R) | apply (keeps_js_array_map R)
    | apply (keeps_find R) | apply (keeps_axios_get_data R)
    | apply (keeps_pusher_trigger R) | apply (keeps_deleteMany R)
    | apply (keeps_insertMany R) | apply (keeps_insertOne R) ].

Ltac keeps_steps :=
  repeat match goal with
         | |- forall _, _ => intro
         | |- keeps _ (if ?b then _ else _) => destruct b
         | |- keeps ?R _ => keeps_step R
         end.


(** ** What a route touches *)

Ltac unfold_route :=
  unfold route_handler, get_api_map, post_api_map, get_api_content, get_api_action_hub,
    get_api_messages, post_api_send_message, post_api_send_message_rev2,
    post_api_refresh_ted_talks, post_api_refresh_ngos,
    fetchTEDTalks, refreshNGOData, talk_record, ngo_record;
  cbv zeta.

(** Each route attempts only the effects of its row in [route_may]: the
    list routes only read their collection, only [POST /api/send-message]
    publishes (to channel [chat], event [message]), only the content and
    refresh routes contact an upstream, and every storage operation of a
    route is on that route's own collection. *)
Theorem route_effects (r : Route) (env : Env) (req : Request) (w : World) :
  emits (route_may r) w (snd (route_handler r env req w)).
Proof.
  assert (H : keeps (emits (route_may r)) (route_handler r env req)).
  { destruct r; unfold_route; keeps_steps; simpl; trivial. }
  destruct (route_handler r env req w) as [o w'] eqn:E. exact (H w o w' E).
Qed.

(** A route leaves every collection other than its own exactly as it was,
    whatever the outcome of the request. *)
Theorem route_keeps_other_collections
    (r : Route) (env : Env) (req : Request) (w : World) (c : string) :
  c <> route_collection r ->
  coll (snd (route_handler r env req w)) c = coll w c.
Proof.
  intros Hc.
  assert (H : keeps (keeps_coll c) (route_handler r env req)).
  { destruct r; simpl in Hc; unfold_route; keeps_steps; simpl; trivial;
      intros; congruence. }
  destruct (route_handler r env req w) as [o w'] eqn:E. exact (H w o w' E).
Qed.

(** No route removes or alters a stored check-in or chat message: after
    any request the documents [mapData] and [messages] held before are
    still there, in order, at the front of their collections. *)
Theorem checkins_and_messages_are_append_only
    (r : Route) (env : Env) (req : Request) (w : World) :
  coll w "mapData" `prefix_of` coll (snd (route_handler r env req w)) "mapData"
  /\ coll w "messages" `prefix_of` coll (snd (route_handler r env req w)) "messages"
  /\ coll w "messages" `prefix_of` coll (snd (post_api_send_message_rev2 env req w)) "messages".
Proof.
  assert (Hside : forall (c c' : string) (old new : list JSValue),
            c' <> c \/ old `prefix_of` (old ++ new)%list).
  { intros. right. now apply prefix_app_r. }
  assert (H : forall c, c = "mapData" \/ c = "messages" ->
            keeps (grows_coll c) (route_handler r env req)
            /\ keeps (grows_coll c) (post_api_send_message_rev2 env req)).
  { intros c Hc. split; [destruct r |]; unfold_route; keeps_steps; simpl; trivial;
      try apply Hside; left; destruct Hc as [-> | ->]; discriminate. }
  destruct (route_handler r env req w) as [o w'] eqn:E.
  destruct (post_api_send_message_rev2 env req w) as [o2 w2] eqn:E2.
  split; [| split].
  - exact (proj1 (H "mapData" (or_introl eq_refl)) w o w' E).
  - exact (proj1 (H "messages" (or_intror eq_refl)) w o w' E).
  - exact (proj2 (H "messages" (or_intror eq_refl)) w o2 w2 E2).
Qed.

Lemma route_keeps_other_collections_witness :
  coll (snd (route_handler GET_api_action_hub (sample_env (upstream two_talks five_orgs))
               (request [("type", "Charity")] (JObj []) []) busy_world)) "messages"
  = coll busy_world "messages"
  /\ length (coll busy_world "messages") = 3%nat.
Proof.
  split; [| reflexivity].
  apply route_keeps_other_collections. discriminate.
Defined.

(** ** The list routes *)

Lemma apply_limit_nat n (l : list JSValue) :
  (0 < n)%nat -> apply_limit (Some (Z.of_nat n)) l = firstn n l.
Proof.
  intros Hn. unfold apply_limit.
  destruct (Z.eqb_spec (Z.of_nat n) 0) as [E | _]; [lia |].
  now rewrite Zabs2Nat.id.
Qed.

Lemma find_served env c q lim w :
  q_text q = None ->
  storage_ok env (ticks w) (OpFind c lim) = true ->
  find env c q lim w
  = (Ret (apply_limit lim (sort_desc (filter (fun d => matches env c q d = true) (coll w c)))),
     record (EvFind c) w).
Proof. intros Hq Hok. unfold find. now rewrite Hq, Hok. Qed.

(** [GET /api/messages] with [limit=n] for [n >= 1] (or no [limit] and
    [n = 50]), when the storage serves the read: the answer is the [n]
    newest messages (all of them when there are fewer), newest first, and
    the only effect is the read. *)
Theorem messages_newest_first (env : Env) (req : Request) (w : World) (n : nat) :
  requested_limit req 50 n -> (0 < n)%nat ->
  storage_ok env (ticks w) (OpFind "messages" (Some (Z.of_nat n))) = true ->
  exists served rest,
    get_api_messages env req w
      = (Ret (response 200 (JArr served)), record (EvFind "messages") w)
    /\ length served = Nat.min n (length (coll w "messages"))
    /\ newest_first served
    /\ Permutation (served ++ rest) (coll w "messages")
    /\ forall x y, In x served -> In y rest -> not_newer x y.
Proof.
  intros Hlim Hn Hok.
  destruct (requested_limit_reads req 50 n Hlim) as [Hp _].
  change (Z.of_nat 50) with 50 in Hp.
  set (sorted := sort_desc (coll w "messages")).
  exists (firstn n sorted), (skipn n sorted).
  split; [| split; [| split; [| split]]].
  - unfold get_api_messages, try_catch, mbind, eff_bind. cbv zeta.
    rewrite Hp, (find_served env "messages" query_all _ w eq_refl Hok).
    now rewrite filter_unfiltered, (apply_limit_nat n _ Hn).
  - rewrite length_firstn. unfold sorted.
    now rewrite (Permutation_length (sort_desc_perm _)).
  - apply firstn_sorted, sort_desc_sorted.
  - rewrite firstn_skipn. apply sort_desc_perm.
  - intros x y Hx Hy. eapply sorted_split; [apply sort_desc_sorted | exact Hx | exact Hy].
Qed.

Lemma messages_newest_first_witness :
  exists served rest,
    get_api_messages (sample_env offline) (request [("limit", "2")] (JObj []) []) busy_world
      = (Ret (response 200 (JArr served)), record (EvFind "messages") busy_world)
    /\ length served = 2%nat
    /\ newest_first served
    /\ Permutation (served ++ rest) (coll busy_world "messages")
    /\ forall x y, In x served -> In y rest -> not_newer x y.
Proof.
  apply (messages_newest_first (sample_env offline)
           (request [("limit", "2")] (JObj []) []) busy_world 2).
  - left. vm_compute. reflexivity.
  - lia.
  - reflexivity.
Defined.

(** [GET /api/map], when the storage serves the read: the answer holds
    stored check-ins only, newest first, at most [n] of them for
    [limit=n] with [n >= 1] (or no [limit] and [n = 100]), and with a
    non-empty [category] every one of them has that category; the only
    effect is the read. *)
Theorem map_listing (env : Env) (req : Request) (w : World) :
  storage_ok env (ticks w) (OpFind "mapData" (parseInt_limit (query_limit req 100))) = true ->
  exists docs,
    get_api_map env req w = (Ret (response 200 (JArr docs)), record (EvFind "mapData") w)
    /\ newest_first docs
    /\ Forall (fun d => In d (coll w "mapData")) docs
    /\ (forall c, truthy_param (query req !! "category") = Some c ->
          Forall (fun d => field_matches (prop d "category") c = true) docs)
    /\ (truthy_param (query req !! "category") = None ->
          forall n, requested_limit req 100 n -> (0 < n)%nat ->
          docs = firstn n (sort_desc (coll w "mapData")))
    /\ (forall n, requested_limit req 100 n -> (0 < n)%nat -> (length docs <= n)%nat).
Proof.
  intros Hok.
  destruct (find env "mapData" (map_query req) (parseInt_limit (query_limit req 100)) w)
    as [o w1] eqn:Hfind.
  assert (Ho : exists docs, o = Ret docs).
  { rewrite (find_served env "mapData" (map_query req) _ w eq_refl Hok) in Hfind.
    injection Hfind as <- _. eauto. }
  destruct Ho as [docs ->]. exists docs.
  pose proof (find_inv _ _ _ _ _ _ _ Hfind) as [-> Hdocs].
  pose proof (find_matching _ _ _ _ _ _ _ Hfind) as Hm.
  assert (Hlimit : forall n, requested_limit req 100 n -> (0 < n)%nat ->
            docs = firstn n (sort_desc (filter (fun d => matches env "mapData" (map_query req) d = true)
                                          (coll w "mapData")))).
  { intros n Hlim Hn. destruct (requested_limit_reads req 100 n Hlim) as [Hp _].
    change (Z.of_nat 100) with 100 in Hp. rewrite Hdocs, Hp. now apply apply_limit_nat. }
  split; [| split; [| split; [| split; [| split]]]].
  - unfold get_api_map, try_catch, mbind, eff_bind. cbv zeta. now rewrite Hfind.
  - eapply find_newest_first. exact Hfind.
  - eapply List.Forall_impl; [| exact Hm]. now intros d [Hin _].
  - intros c Hc. eapply List.Forall_impl; [| exact Hm]. intros d [_ Hd].
    unfold matches, map_query in Hd. rewrite Hc in Hd. simpl in Hd.
    now rewrite andb_true_r in Hd.
  - intros Hc n Hlim Hn. rewrite (Hlimit n Hlim Hn).
    unfold map_query. rewrite Hc. fold query_all. now rewrite filter_unfiltered.
  - intros n Hlim Hn. rewrite (Hlimit n Hlim Hn), length_firstn. lia.
Qed.

Lemma map_listing_witness :
  exists docs,
    get_api_map (sample_env offline) (request [("category", "general")] (JObj []) []) busy_world
      = (Ret (response 200 (JArr docs)), record (EvFind "mapData") busy_world)
    /\ docs = [checkin_doc 2 "general" 20; checkin_doc 0 "general" 10].
Proof.
  destruct (map_listing (sample_env offline)
              (request [("category", "general")] (JObj []) []) busy_world)
    as (docs & Hrun & _).
  - reflexivity.
  - exists docs. split; [exact Hrun |].
    vm_compute in Hrun. now injection Hrun as <-.
Defined.

(** ** Posting a chat message *)

Lemma events_since_app w w' evs :
  log w' = (log w ++ evs)%list -> events_since w w' = evs.
Proof. intros H. unfold events_since. rewrite H. apply drop_app_length. Qed.

Lemma events_since_refl w : events_since w w = [].
Proof. apply events_since_app. now rewrite app_nil_r. Qed.

Lemma js_get_prop b k v : js_get b k = Ret v -> v = prop b k.
Proof. destruct b; simpl; intros H; try discriminate; now injection H as <-. Qed.

Lemma js_get_prop_all b k v : js_get b k = Ret v -> forall k', js_get b k' = Ret (prop b k').
Proof. destruct b; simpl; intros H; try discriminate; reflexivity. Qed.

Lemma js_or_defined a d : d <> JUndefined -> js_or a d <> JUndefined.
Proof.
  intros Hd. unfold js_or. destruct (truthy a) eqn:E; [| exact Hd].
  intros ->. discriminate.
Qed.

(** A message the handler builds has no [undefined] property: it is stored
    as it is. *)
Lemma message_stored env req w (n : nat) :
  truthy (prop (body req) "text") = true ->
  truthy (prop (body req) "user") = true ->
  stored_form (js_set (message_of env req w) "_id" (JObjectId n))
  = js_set (message_of env req w) "_id" (JObjectId n).
Proof.
  intros Ht Hu. unfold message_of. simpl.
  rewrite (stored_value_truthy _ Ht), (stored_value_truthy _ Hu).
  rewrite (stored_value_defined (js_or _ _)) by (apply js_or_defined; discriminate).
  reflexivity.
Qed.

(** A message with truthy [text] and [user] whose insert the storage
    accepts: the message built from the body (with [''] for a falsy
    [photoURL] and the server's clock reading as [createdAt]) is appended
    to [messages] with its storage key, then published once on channel
    [chat] as event [message], and the answer is 201 with the same
    document; the second revision of the route always does so, the first
    when the insert result carries [ops]. *)
Theorem send_message_stores_then_publishes (env : Env) (req : Request) (w : World) :
  truthy (prop (body req) "text") = true ->
  truthy (prop (body req) "user") = true ->
  storage_ok env (S (ticks w)) (OpInsertOne "messages") = true ->
  exists w',
    let saved := js_set (message_of env req w) "_id" (JObjectId (next_id w)) in
    post_api_send_message_rev2 env req w = (Ret (response 201 saved), w')
    /\ (insert_result_has_ops env = true ->
        post_api_send_message env req w = (Ret (response 201 saved), w'))
    /\ coll w' "messages" = (coll w "messages" ++ [saved])%list
    /\ events_since w w' = [EvInsertOne "messages" (message_of env req w);
                            EvPublish "chat" "message" saved].
Proof.
  intros Ht Hu Hok.
  assert (Hget : forall k, js_get (body req) k = Ret (prop (body req) k)).
  { intros k. destruct (body req); try reflexivity; discriminate. }
  eexists. cbv zeta.
  unfold post_api_send_message_rev2, post_api_send_message, try_catch, mbind, eff_bind, lift.
  rewrite !Hget, Ht, Hu. simpl. unfold insertOne. simpl. rewrite Hok.
  unfold result_ops_0. simpl.
  split; [reflexivity |]. split; [intros ->; reflexivity |].
  split.
  - unfold coll. simpl. rewrite lookup_insert_eq. simpl. do 2 f_equal.
    apply (message_stored env req w (next_id w) Ht Hu).
  - apply events_since_app. simpl. now rewrite <- app_assoc.
Qed.

Lemma send_message_stores_then_publishes_witness :
  let req := request [] (JObj [("text", JStr "hi"); ("user", JStr "alice")]) [] in
  let saved := JObj [("text", JStr "hi"); ("user", JStr "alice"); ("photoURL", JStr "");
                     ("createdAt", JDate 1700000000000); ("_id", JObjectId 7)] in
  exists w',
    post_api_send_message_rev2 (sample_env offline) req busy_world
      = (Ret (response 201 saved), w')
    /\ coll w' "messages" = (coll busy_world "messages" ++ [saved])%list.
Proof.
  intros req saved.
  destruct (send_message_stores_then_publishes (sample_env offline) req busy_world)
    as (w' & Hrun & _ & Hcoll & _); [reflexivity | reflexivity | reflexivity |].
  exists w'. split; [exact Hrun | exact Hcoll].
Defined.

(** Nothing is published that was not stored: whenever a run of
    [POST /api/send-message] (either revision) publishes, what it
    publishes is a document of [messages] and the body of its 201 answer. *)
Theorem publish_only_after_store
    (env : Env) (req : Request) (w : World) (ch ev : string) (p : JSValue) :
  (In (EvPublish ch ev p) (events_since w (snd (post_api_send_message env req w))) ->
   In p (coll (snd (post_api_send_message env req w)) "messages")
   /\ fst (post_api_send_message env req w) = Ret (response 201 p))
  /\ (In (EvPublish ch ev p) (events_since w (snd (post_api_send_message_rev2 env req w))) ->
      In p (coll (snd (post_api_send_message_rev2 env req w)) "messages")
      /\ fst (post_api_send_message_rev2 env req w) = Ret (response 201 p)).
Proof.
  unfold post_api_send_message_rev2, post_api_send_message, try_catch, mbind, eff_bind, lift.
  destruct (js_get (body req) "text") as [text | e] eqn:Ht.
  2: { simpl. rewrite events_since_refl. split; intros []. }
  rewrite (js_get_prop_all _ _ _ Ht "user"), (js_get_prop_all _ _ _ Ht "photoURL").
  destruct (negb (truthy text) || negb (truthy (prop (body req) "user"))) eqn:Hreq.
  { simpl. rewrite events_since_refl. split; intros []. }
  apply orb_false_elim in Hreq as [Tt Tu]. apply negb_false_iff in Tt, Tu.
  simpl. unfold insertOne. simpl.
  destruct (storage_ok env (S (ticks w)) (OpInsertOne "messages")).
  2: { simpl. erewrite events_since_app by reflexivity.
       split; (intros [H | []]; discriminate H). }
  unfold result_ops_0. split.
  - destruct (insert_result_has_ops env); simpl.
    + erewrite events_since_app by (simpl; rewrite <- app_assoc; reflexivity).
      intros [H | [H | []]]; [discriminate H |]. injection H as _ _ <-.
      split; [| reflexivity]. unfold coll. simpl. rewrite lookup_insert_eq. simpl.
      rewrite (stored_value_truthy _ Tt), (stored_value_truthy _ Tu).
      rewrite (stored_value_defined (js_or _ _)) by (apply js_or_defined; discriminate).
      apply in_or_app. right. now left.
    + erewrite events_since_app by reflexivity.
      intros [H | []]; discriminate H.
  - simpl. erewrite events_since_app by (simpl; rewrite <- app_assoc; reflexivity).
    intros [H | [H | []]]; [discriminate H |]. injection H as _ _ <-.
    split; [| reflexivity]. unfold coll. simpl. rewrite lookup_insert_eq. simpl.
    rewrite (stored_value_truthy _ Tt), (stored_value_truthy _ Tu).
    rewrite (stored_value_defined (js_or _ _)) by (apply js_or_defined; discriminate).
    apply in_or_app. right. now left.
Qed.

Lemma publish_only_after_store_witness :
  let req := request [] (JObj [("text", JStr "hi"); ("user", JStr "alice")]) [] in
  let r := post_api_send_message (sample_env offline) req busy_world in
  exists p, In (EvPublish "chat" "message" p) (events_since busy_world (snd r))
            /\ In p (coll (snd r) "messages")
            /\ fst r = Ret (response 201 p).
Proof.
  intros req r.
  exists (JObj [("text", JStr "hi"); ("user", JStr "alice"); ("photoURL", JStr "");
                ("createdAt", JDate 1700000000000); ("_id", JObjectId 7)]).
  assert (Hin : In (EvPublish "chat" "message"
                      (JObj [("text", JStr "hi"); ("user", JStr "alice"); ("photoURL", JStr "");
                             ("createdAt", JDate 1700000000000); ("_id", JObjectId 7)]))
                   (events_since busy_world (snd r))).
  { vm_compute. right. left. reflexivity. }
  split; [exact Hin |].
  exact (proj1 (publish_only_after_store (sample_env offline) req busy_world _ _ _) Hin).
Defined.

(** Where the driver's insert result has no [ops] array, the routes that
    read [result.ops[0]] store the document and then fail: the first
    revision of [POST /api/send-message] answers 500 and publishes nothing
    although the message is in [messages], and [POST /api/map] answers 500
    although the check-in is in [mapData]. *)
Theorem stored_but_failed_without_ops (env : Env) (req : Request) (w : World) :
  insert_result_has_ops env = false ->
  (truthy (prop (body req) "text") = true ->
   truthy (prop (body req) "user") = true ->
   storage_ok env (S (ticks w)) (OpInsertOne "messages") = true ->
   exists w',
     post_api_send_message env req w
       = (Ret (response 500 (error_body "Failed to send message")), w')
     /\ coll w' "messages"
        = (coll w "messages" ++ [js_set (message_of env req w) "_id" (JObjectId (next_id w))])%list
     /\ events_since w w' = [EvInsertOne "messages" (message_of env req w)])
  /\ (truthy (prop (body req) "location") = true ->
      truthy (prop (body req) "interest") = true ->
      storage_ok env (S (ticks w)) (OpInsertOne "mapData") = true ->
      exists w' doc,
        post_api_map env req w
          = (Ret (response 500 (error_body "Failed to save location")), w')
        /\ coll w' "mapData" = (coll w "mapData" ++ [doc])%list
        /\ prop doc "location" = prop (body req) "location").
Proof.
  intros Hops. split; intros H1 H2 Hok.
  - assert (Hget : forall k, js_get (body req) k = Ret (prop (body req) k)).
    { intros k. destruct (body req); try reflexivity; discriminate. }
    eexists.
    unfold post_api_send_message, try_catch, mbind, eff_bind, lift.
    rewrite !Hget, H1, H2. simpl. unfold insertOne. simpl. rewrite Hok.
    unfold result_ops_0. rewrite Hops. simpl.
    split; [reflexivity |].
    split.
    + unfold coll. simpl. rewrite lookup_insert_eq. simpl. do 2 f_equal.
      apply (message_stored env req w (next_id w) H1 H2).
    + now apply events_since_app.
  - assert (Hget : forall k, js_get (body req) k = Ret (prop (body req) k)).
    { intros k. destruct (body req); try reflexivity; discriminate. }
    do 2 eexists.
    unfold post_api_map, try_catch, mbind, eff_bind, lift.
    rewrite !Hget, H1, H2. simpl. unfold insertOne. simpl. rewrite Hok.
    unfold result_ops_0. rewrite Hops. simpl.
    split; [reflexivity |].
    split; [unfold coll; simpl; now rewrite lookup_insert_eq |].
    simpl. now apply stored_value_truthy.
Qed.

Lemma stored_but_failed_without_ops_witness :
  let env := without_ops (sample_env offline) in
  let req := request [] (JObj [("text", JStr "hi"); ("user", JStr "alice")]) [] in
  exists w',
    post_api_send_message env req busy_world
      = (Ret (response 500 (error_body "Failed to send message")), w')
    /\ length (coll w' "messages") = 4%nat
    /\ events_since busy_world w' = [EvInsertOne "messages" (message_of env req busy_world)].
Proof.
  intros env req.
  destruct (proj1 (stored_but_failed_without_ops env req busy_world eq_refl))
    as (w' & Hrun & Hcoll & Hev); [reflexivity | reflexivity | reflexivity |].
  exists w'. split; [exact Hrun |]. split; [now rewrite Hcoll | exact Hev].
Defined.

(** ** The refresh routes, once admitted *)

Lemma admitted_not_denied env req : admitted env req -> refresh_denied env req = false.
Proof.
  unfold admitted, refresh_denied. intros [H | H].
  - now rewrite bool_decide_eq_false_2.
  - rewrite (bool_decide_eq_true_2 _ H). apply andb_false_r.
Qed.

(** A refresh request that passes the gate (the mode is not production,
    or the header equals the admin key) runs its fetcher once: when the
    fetcher completes the answer is 200 with [count] the number of
    documents now in the collection, and when it throws the answer is 500
    and the world is as the fetcher left it. *)
Theorem refresh_reports_collection_size (env : Env) (req : Request) (w : World) :
  admitted env req ->
  (forall talks w', fetchTEDTalks env w = (Ret talks, w') ->
     post_api_refresh_ted_talks env req w
       = (Ret (response 200 (refresh_body (length (coll w' "tedTalks")))), w'))
  /\ (forall e w', fetchTEDTalks env w = (Throw e, w') ->
        post_api_refresh_ted_talks env req w
          = (Ret (response 500 (error_body "Failed to refresh TED Talks")), w'))
  /\ (forall ngos w', refreshNGOData env w = (Ret ngos, w') ->
        post_api_refresh_ngos env req w
          = (Ret (response 200 (refresh_body (length (coll w' "ngos")))), w'))
  /\ (forall e w', refreshNGOData env w = (Throw e, w') ->
        post_api_refresh_ngos env req w
          = (Ret (response 500 (error_body "Failed to refresh NGOs")), w')).
Proof.
  intros Hadm. pose proof (admitted_not_denied env req Hadm) as Hgate.
  unfold post_api_refresh_ted_talks, post_api_refresh_ngos, try_catch, mbind, eff_bind.
  rewrite Hgate.
  split; [| split; [| split]].
  - intros talks w' Hrun. rewrite Hrun.
    now rewrite (proj1 (fetchTEDTalks_replaces env w talks w' Hrun)), length_map.
  - intros e w' Hrun. now rewrite Hrun.
  - intros ngos w' Hrun. rewrite Hrun.
    now rewrite (proj1 (refreshNGOData_replaces env w ngos w' Hrun)), length_map.
  - intros e w' Hrun. now rewrite Hrun.
Qed.

Lemma refresh_reports_collection_size_witness :
  let env := sample_env (upstream two_talks five_orgs) in
  let req := request [] (JObj []) [("x-api-key", "s3cret")] in
  let r := fetchTEDTalks env stale_world in
  post_api_refresh_ted_talks env req stale_world
  = (Ret (response 200 (refresh_body 2)), snd r)
  /\ length (coll (snd r) "tedTalks") = 2%nat.
Proof.
  intros env req r.
  assert (Hlen : length (coll (snd r) "tedTalks") = 2%nat) by (vm_compute; reflexivity).
  split; [| exact Hlen]. rewrite <- Hlen.
  apply (proj1 (refresh_reports_collection_size env req stale_world
                  (or_intror eq_refl)) (returned r)).
  vm_compute. reflexivity.
Defined.

(** A refresh request that passes the gate while the upstream fetch fails
    (the GET is rejected or the payload is malformed) is answered 500
    after exactly one GET, with the database as it was. *)
Theorem refresh_upstream_failure (env : Env) (req : Request) (w : World) :
  admitted env req ->
  (fetch_fails talks_of (axios_get env (ticks w) TED_URL) = true ->
   exists w',
     post_api_refresh_ted_talks env req w
       = (Ret (response 500 (error_body "Failed to refresh TED Talks")), w')
     /\ db w' = db w
     /\ events_since w w' = [EvHttpGet TED_URL])
  /\ (fetch_fails organizations_of (axios_get env (ticks w) NGO_URL) = true ->
      exists w',
        post_api_refresh_ngos env req w
          = (Ret (response 500 (error_body "Failed to refresh NGOs")), w')
        /\ db w' = db w
        /\ events_since w w' = [EvHttpGet NGO_URL]).
Proof.
  intros Hadm. pose proof (admitted_not_denied env req Hadm) as Hgate.
  unfold post_api_refresh_ted_talks, post_api_refresh_ngos, try_catch, mbind, eff_bind.
  rewrite Hgate. split; intros Hfail.
  - destruct (cycle_upstream_failure env TED_URL talks_of (talk_record env) "tedTalks"
                (talk_record_builder env) w Hfail) as (e & w' & Hrun & Hdb & Hlog & _).
    rewrite <- fetchTEDTalks_cycle in Hrun. rewrite Hrun.
    exists w'. split; [reflexivity |]. split; [exact Hdb | now apply events_since_app].
  - destruct (cycle_upstream_failure env NGO_URL organizations_of (ngo_record env) "ngos"
                (ngo_record_builder env) w Hfail) as (e & w' & Hrun & Hdb & Hlog & _).
    rewrite <- refreshNGOData_cycle in Hrun. rewrite Hrun.
    exists w'. split; [reflexivity |]. split; [exact Hdb | now apply events_since_app].
Qed.

Lemma refresh_upstream_failure_witness :
  exists w',
    post_api_refresh_ngos (sample_env offline)
      (request [] (JObj []) [("x-api-key", "s3cret")]) busy_world
    = (Ret (response 500 (error_body "Failed to refresh NGOs")), w')
    /\ db w' = db busy_world
    /\ events_since busy_world w' = [EvHttpGet NGO_URL].
Proof.
  apply (proj2 (refresh_upstream_failure (sample_env offline)
                  (request [] (JObj []) [("x-api-key", "s3cret")]) busy_world
                  (or_intror eq_refl))).
  reflexivity.
Defined.

(** ** Stored NGO records *)

Lemma js_or_truthy a d : truthy d = true -> truthy (js_or a d) = true.
Proof. intros Hd. unfold js_or. destruct (truthy a) eqn:E; [exact E | exact Hd]. Qed.

Lemma truthy_stored_value v : truthy (stored_value v) = truthy v.
Proof. now destruct v. Qed.

Lemma ngo_record_shaped env org w d w' (x : JSValue) :
  ngo_record env org w = (Ret d, w') -> ngo_shaped (stored_form (js_set d "_id" x)).
Proof.
  destruct org; simpl; try discriminate; intros H; injection H as <- _;
    unfold ngo_shaped; simpl; rewrite ?truthy_stored_value;
    (split; [reflexivity |]);
    (split; [first [reflexivity | now apply js_or_truthy] |]);
    (split; [first [reflexivity | now apply js_or_truthy] |]);
    (split; [first [reflexivity | now apply js_or_truthy] |]);
    (split; eexists; reflexivity).
Qed.

Lemma map_eff_ngo_shaped env items : forall w mapped w' n,
  map_eff (ngo_record env) items w = (Ret mapped, w') ->
  Forall ngo_shaped (map stored_form (assign_ids n mapped)).
Proof.
  induction items as [| x r IH]; intros w mapped w' n H; simpl in H.
  - injection H as <- _. constructor.
  - unfold mbind, eff_bind in H.
    destruct (ngo_record env x w) as [[d | e] w1] eqn:Hx; [| discriminate].
    destruct (map_eff (ngo_record env) r w1) as [[ys | e] w2] eqn:Hr; [| discriminate].
    injection H as <- _. cbn [assign_ids map]. constructor.
    + eapply ngo_record_shaped. exact Hx.
    + eapply IH. exact Hr.
Qed.

(** After a completed [refreshNGOData] every document of [ngos] has
    [type] ["NGO"], a truthy [description], [website] and [mission] (the
    fallback texts stand in for what the upstream left out), a string as
    [location] and a date as [createdAt]. *)
Theorem stored_ngos_are_normalized (env : Env) (w w' : World) (ngos : list JSValue) :
  refreshNGOData env w = (Ret ngos, w') ->
  Forall ngo_shaped (coll w' "ngos").
Proof.
  intros Hrun.
  rewrite (proj1 (refreshNGOData_replaces env w ngos w' Hrun)).
  rewrite refreshNGOData_cycle in Hrun.
  apply (cycle_returns _ _ _ _ _ (ngo_record_builder env)) in Hrun
    as (data & items & mapped & _ & _ & [wm Hmap] & _ & -> & _).
  eapply map_eff_ngo_shaped. exact Hmap.
Qed.

Lemma stored_ngos_are_normalized_witness :
  let r := refreshNGOData (sample_env (upstream two_talks five_orgs)) empty_world in
  length (coll (snd r) "ngos") = 5%nat
  /\ Forall ngo_shaped (coll (snd r) "ngos")
  /\ Forall (fun d => prop d "website" = JStr "Not available"
                      /\ prop d "location" = JStr "Austin, TX") (coll (snd r) "ngos").
Proof.
  intros r. split; [vm_compute; reflexivity |]. split.
  - apply (stored_ngos_are_normalized (sample_env (upstream two_talks five_orgs))
             empty_world (snd r) (returned r)).
    vm_compute. reflexivity.
  - vm_compute. repeat constructor.
Defined.

(** ** The [type] filter of the action hub *)

Lemma cycle_contacts_upstream env url extract mapper c w :
  record_builder mapper ->
  exists rest,
    log (snd (replace_collection env url extract mapper c w))
    = (log w ++ EvHttpGet url :: rest)%list.
Proof.
  intros Hb. unfold replace_collection, mbind, eff_bind, lift, axios_get_data.
  destruct (axios_get env (ticks w) url) as [| data]; [exists []; reflexivity |].
  destruct (extract data) as [arr | e]; [| exists []; reflexivity].
  destruct (js_array_map arr mapper (record (EvHttpGet url) w)) as [[docs | e] wm] eqn:Hmap.
  - assert (Hlog : log wm = (log w ++ [EvHttpGet url])%list).
    { destruct arr; simpl in Hmap; try discriminate.
      now destruct (map_eff_same_store mapper Hb _ _ _ _ Hmap) as (_ & -> & _). }
    unfold deleteMany, insertMany.
    destruct (storage_ok env (ticks wm) (OpDeleteMany c)); simpl.
    + destruct (storage_ok env _ (OpInsertMany c (length docs))); simpl;
        rewrite Hlog, <- !app_assoc; eexists; reflexivity.
    + rewrite Hlog, <- !app_assoc. eexists. reflexivity.
  - assert (Hlog : log wm = (log w ++ [EvHttpGet url])%list).
    { destruct arr; simpl in Hmap; try (injection Hmap as _ <-; reflexivity).
      now destruct (map_eff_same_store mapper Hb _ _ _ _ Hmap) as (_ & -> & _). }
    simpl. rewrite Hlog. exists []. reflexivity.
Qed.

Lemma filter_none (P : JSValue -> bool) (l : list JSValue) :
  Forall (fun d => P d = false) l -> filter (fun d => P d = true) l = [].
Proof.
  induction 1 as [| d r Hd _ IH]; [reflexivity |].
  rewrite filter_cons. destruct (decide _) as [E | _]; [congruence | exact IH].
Qed.

Lemma field_matches_other_type t : t <> "NGO" -> field_matches (JStr "NGO") t = false.
Proof.
  intros Hne. unfold field_matches.
  destruct (String.eqb_spec "NGO" t) as [E | _]; [now destruct Hne | reflexivity].
Qed.

(** Every stored NGO has [type] ["NGO"], so a [type] parameter with any
    other value matches nothing: on a cache of such records, however full,
    [GET /api/action-hub?type=t] with [t] other than ["NGO"] finds nothing
    and goes to the upstream for a full refresh, on every such request. *)
Theorem action_hub_other_type_refreshes
    (env : Env) (req : Request) (w : World) (t : string) :
  Forall (fun d => prop d "type" = JStr "NGO") (coll w "ngos") ->
  truthy_param (query req !! "type") = Some t ->
  t <> "NGO" ->
  storage_ok env (ticks w) (OpFind "ngos" (parseInt_limit (query_limit req 50))) = true ->
  exists rest,
    events_since w (snd (get_api_action_hub env req w))
    = EvFind "ngos" :: EvHttpGet NGO_URL :: rest.
Proof.
  intros Hall Ht Hne Hok.
  assert (Hfind : find env "ngos" (action_hub_query req) (parseInt_limit (query_limit req 50)) w
                  = (Ret [], record (EvFind "ngos") w)).
  { unfold find. rewrite Hok, (cached_indexed "ngos" _ (or_intror eq_refl)). simpl.
    rewrite filter_none; [now rewrite apply_limit_nil |].
    eapply List.Forall_impl; [| exact Hall]. intros d Hd.
    unfold matches, action_hub_query. cbn [q_text q_eq]. rewrite Ht. cbn [forallb].
    rewrite Hd, (field_matches_other_type t Hne). apply andb_false_r. }
  destruct (cycle_contacts_upstream env NGO_URL organizations_of (ngo_record env) "ngos"
              (record (EvFind "ngos") w) (ngo_record_builder env)) as [rest Hlog].
  rewrite <- refreshNGOData_cycle in Hlog.
  exists rest. apply events_since_app.
  unfold get_api_action_hub, try_catch, mbind, eff_bind. cbv zeta. rewrite Hfind. simpl.
  destruct (refreshNGOData env (record (EvFind "ngos") w)) as [[fresh | e] w'];
    simpl in *; rewrite Hlog; now rewrite <- app_assoc.
Qed.

Lemma action_hub_other_type_refreshes_witness :
  exists rest,
    events_since busy_world
      (snd (get_api_action_hub (sample_env (upstream two_talks five_orgs))
              (request [("type", "Charity")] (JObj []) []) busy_world))
    = EvFind "ngos" :: EvHttpGet NGO_URL :: rest.
Proof.
  apply (action_hub_other_type_refreshes (sample_env (upstream two_talks five_orgs))
           (request [("type", "Charity")] (JObj []) []) busy_world "Charity").
  - repeat constructor.
  - reflexivity.
  - discriminate.
  - reflexivity.
Defined.

(** ** The category of a check-in *)

(** The default ["general"] stands in only for a missing [category]: any
    other value the body gives, also [null], [''] or [0], is stored as it
    is.  A [userId] the body gives is stored as it is, and a check-in
    without one is stored with [userId] [null]. *)
Theorem checkin_category_stored_as_given
    (env : Env) (req : Request) (w : World) (category : JSValue) :
  truthy (prop (body req) "location") = true ->
  truthy (prop (body req) "interest") = true ->
  prop (body req) "category" = category -> category <> JUndefined ->
  storage_ok env (S (ticks w)) (OpInsertOne "mapData") = true ->
  exists doc,
    coll (snd (post_api_map env req w)) "mapData" = (coll w "mapData" ++ [doc])%list
    /\ prop doc "category" = category
    /\ (prop (body req) "userId" <> JUndefined ->
        prop doc "userId" = prop (body req) "userId")
    /\ (prop (body req) "userId" = JUndefined -> prop doc "userId" = JNull).
Proof.
  intros Hl Hi Hc Hne Hok.
  assert (Hget : forall k, js_get (body req) k = Ret (prop (body req) k)).
  { intros k. destruct (body req); try reflexivity; discriminate. }
  eexists.
  unfold post_api_map, try_catch, mbind, eff_bind, lift.
  rewrite !Hget, Hl, Hi, Hc. simpl. unfold insertOne. simpl. rewrite Hok.
  unfold result_ops_0.
  assert (Hd : default_to (JStr "general") category = category)
    by (destruct category; try reflexivity; contradiction).
  destruct (insert_result_has_ops env); simpl;
    (split; [unfold coll; simpl; now rewrite lookup_insert_eq |]);
    simpl; rewrite Hd;
    (split; [now apply stored_value_defined |]);
    (split; [apply stored_value_defined | intros ->; reflexivity]).
Qed.

Lemma checkin_category_stored_as_given_witness :
  exists doc,
    coll (snd (post_api_map (sample_env offline)
                 (request [] (JObj [("location", JStr "Pune"); ("interest", JStr "trees");
                                    ("category", JNull)]) [])
                 busy_world)) "mapData"
    = (coll busy_world "mapData" ++ [doc])%list
    /\ prop doc "category" = JNull
    /\ prop doc "userId" = JNull.
Proof.
  destruct (checkin_category_stored_as_given (sample_env offline)
              (request [] (JObj [("location", JStr "Pune"); ("interest", JStr "trees");
                                 ("category", JNull)]) [])
              busy_world JNull) as (doc & Hcoll & Hcat & _ & Huser);
    [reflexivity | reflexivity | reflexivity | discriminate | reflexivity |].
  exists doc. split; [exact Hcoll |]. split; [exact Hcat |]. now apply Huser.
Defined.

(** ** Every route answers *)

Lemma returns_only_respond P code payload :
  P (response code payload) -> returns_only P (respond code payload).
Proof. intros H w resp w' E. injection E as <- _. exact H. Qed.

Lemma returns_only_bind {A} P (m : Eff A) (f : A -> Eff Response) :
  (forall a, returns_only P (f a)) -> returns_only P (m ≫= f).
Proof.
  intros Hf w resp w' E. unfold mbind, eff_bind in E.
  destruct (m w) as [[a | e] w1]; [| discriminate]. eapply Hf. exact E.
Qed.

Lemma try_catch_answers P (body : Eff Response) code msg :
  returns_only P body -> P (response code (error_body msg)) ->
  forall w, exists resp w',
    try_catch body (fun err => respond code (error_body msg)) w = (Ret resp, w') /\ P resp.
Proof.
  intros Hb Hh w. unfold try_catch.
  destruct (body w) as [[resp | e] w1] eqn:E.
  - exists resp, w1. split; [reflexivity | eapply Hb; exact E].
  - do 2 eexists. split; [reflexivity | exact Hh].
Qed.

Lemma answer_ok_error code msg :
  In code [400; 403; 500]%nat -> answer_ok (response code (error_body msg)).
Proof. intros H. right. right. split; [exact H | now exists msg]. Qed.

Ltac returns_steps :=
  repeat match goal with
         | |- forall _, _ => intro
         | |- returns_only _ (if ?b then _ else _) => destruct b
         | |- returns_only _ (_ ≫= _) => apply returns_only_bind
         | |- returns_only _ (respond _ _) => apply returns_only_respond
         end.

Lemma returns_only_try_catch P (body : Eff Response) code msg :
  returns_only P body -> P (response code (error_body msg)) ->
  returns_only P (try_catch body (fun err => respond code (error_body msg))).
Proof.
  intros Hb Hh w resp w' E.
  destruct (try_catch_answers P body code msg Hb Hh w) as (resp0 & w0 & E0 & Hok).
  rewrite E in E0. now injection E0 as <- _.
Qed.

Ltac route_answer_steps :=
  unfold route_handler, get_api_map, post_api_map, get_api_content,
    get_api_action_hub, get_api_messages, post_api_send_message,
    post_api_refresh_ted_talks, post_api_refresh_ngos; cbv zeta.

Lemma route_body_answers_ok P :
  (forall code payload, code = 200%nat \/ code = 201%nat -> P (response code payload)) ->
  (forall code msg, In code [400; 403; 500]%nat -> P (response code (error_body msg))) ->
  forall r env req, returns_only P (route_handler r env req).
Proof.
  intros Hsucc Herr r env req.
  destruct r; route_answer_steps;
    (apply returns_only_try_catch; [| apply Herr; simpl; tauto]);
    returns_steps;
    first [ apply Herr; simpl; tauto | apply Hsucc; tauto ].
Qed.

Lemma answer_ok_success code payload :
  code = 200%nat \/ code = 201%nat -> answer_ok (response code payload).
Proof. intros [-> | ->]; [now left | right; now left]. Qed.

(** No exception leaves a route: whatever the request, the environment and
    the state of the database, the handler answers, with 200 or 201, or
    with 400, 403 or 500 and a body of the form [{ error: msg }]. *)
Theorem route_always_answers (r : Route) (env : Env) (req : Request) (w : World) :
  exists resp w', route_handler r env req w = (Ret resp, w') /\ answer_ok resp.
Proof.
  destruct r; route_answer_steps;
    (apply try_catch_answers; [| apply answer_ok_error; simpl; tauto]);
    returns_steps;
    first [ apply answer_ok_error; simpl; tauto | apply answer_ok_success; tauto ].
Qed.

(** ** The client's view of an answer *)

Lemma error_body_message msg : prop (error_body msg) "message" = JUndefined.
Proof. reflexivity. Qed.

(** What [apiClient] makes of a route's answer: a 200 or 201 resolves to
    the JSON body; any other answer rejects with the status, the body, and
    the message ['An error occurred'], because the server's error bodies
    carry their text under [error] and not under [message]. *)
Theorem client_view_of_an_answer
    (r : Route) (env : Env) (req : Request) (w w' : World) (resp : Response) :
  route_handler r env req w = (Ret resp, w') ->
  api.answered (status resp) (json resp)
  = Ret (if ((status resp =? 200) || (status resp =? 201))%nat
         then api.Resolved (json resp)
         else api.Rejected (JObj [("status", JNum (Z.of_nat (status resp)));
                                  ("data", json resp);
                                  ("message", JStr "An error occurred")])).
Proof.
  intros Hrun.
  assert (Hok : answer_ok resp).
  { eapply (route_body_answers_ok answer_ok answer_ok_success answer_ok_error); exact Hrun. }
  destruct resp as [code payload]. unfold answer_ok in Hok. simpl in *.
  destruct Hok as [-> | [-> | [Hcode [msg ->]]]]; try reflexivity.
  simpl in Hcode. destruct Hcode as [<- | [<- | [<- | []]]]; reflexivity.
Qed.

Lemma client_view_of_an_answer_witness :
  let run := route_handler POST_api_map (sample_env offline) (request [] (JObj []) [])
               busy_world in
  run = (Ret missing_fields, busy_world)
  /\ api.answered (status missing_fields) (json missing_fields)
     = Ret (api.Rejected (JObj [("status", JNum 400);
                                ("data", error_body "Missing required fields");
                                ("message", JStr "An error occurred")])).
Proof.
  intros run. split; [reflexivity |].
  apply (client_view_of_an_answer POST_api_map (sample_env offline)
           (request [] (JObj []) []) busy_world busy_world missing_fields).
  reflexivity.
Defined.

(** The second interceptor never rejects without a message: for every
    error object the reason it builds has a truthy [message]; it carries
    [status] and [data] of the response when the error has one, and
    nothing but the message when it has none. *)
Theorem rejection_has_a_message (error : JSValue) :
  error <> JUndefined -> error <> JNull ->
  exists reason,
    api.on_rejected error = Ret reason
    /\ truthy (prop reason "message") = true
    /\ (truthy (prop error "response") = true ->
        prop reason "status" = prop (prop error "response") "status"
        /\ prop reason "data" = prop (prop error "response") "data")
    /\ (truthy (prop error "response") = false ->
        prop reason "status" = JUndefined /\ prop reason "data" = JUndefined).
Proof.
  intros Hu Hn.
  assert (Hget : forall k, js_get error k = Ret (prop error k))
    by (intros k; destruct error; try reflexivity; contradiction).
  unfold api.on_rejected, mbind, outcome_bind. rewrite !Hget.
  destruct (truthy (prop error "response")) eqn:Hr.
  - assert (Hget' : forall k, js_get (prop error "response") k
                              = Ret (prop (prop error "response") k)).
    { intros k. destruct (prop error "response"); try reflexivity; discriminate. }
    rewrite !Hget'.
    assert (Hopt : exists m, api.js_get_opt (prop (prop error "response") "data") "message"
                             = Ret m).
    { destruct (prop (prop error "response") "data"); simpl; eexists; reflexivity. }
    destruct Hopt as [m ->]. eexists. split; [reflexivity |].
    split; [simpl; now apply js_or_truthy |].
    split; [intros _; split; reflexivity | discriminate].
  - destruct (truthy (prop error "request")); eexists;
      (split; [reflexivity |]);
      (split; [simpl; first [reflexivity | now apply js_or_truthy] |]);
      (split; [discriminate | intros _; split; reflexivity]).
Qed.

Lemma rejection_has_a_message_witness :
  exists reason,
    api.on_rejected (JObj [("message", JStr ""); ("request", JUndefined)]) = Ret reason
    /\ prop reason "message" = JStr "Request setup failed"
    /\ truthy (prop reason "message") = true.
Proof.
  destruct (rejection_has_a_message (JObj [("message", JStr ""); ("request", JUndefined)]))
    as (reason & Hrun & Hmsg & _); [discriminate | discriminate |].
  exists reason. split; [exact Hrun |]. split; [| exact Hmsg].
  vm_compute in Hrun. now injection Hrun as <-.
Defined.

(** ** A negative [limit] *)

Lemma slice0_negative {A} (l : list A) (k : nat) :
  (0 < k)%nat -> slice0 l (Fin (- Z.of_nat k)) = firstn (length l - k) l.
Proof.
  intros Hk. unfold slice0.
  destruct (Z.ltb_spec (- Z.of_nat k) 0) as [_ | H]; [| lia].
  f_equal. lia.
Qed.

Lemma parseInt_negative n : parseInt ("-" ++ numeral n) = Some (- Z.of_nat n).
Proof.
  pose proof (parseInt_numeral n) as Hp. revert Hp.
  unfold numeral, parseInt. change (list_ascii_of_string ("-" ++ ?s))
    with ("-"%char :: list_ascii_of_string s).
  fold (chars_of (Nat.to_uint n)).
  rewrite (skip_ws_id (chars_of _)) by apply chars_not_ws.
  rewrite (skip_ws_id ("-"%char :: _)) by (constructor; [reflexivity | apply chars_not_ws]).
  assert (Hs : take_sign (chars_of (Nat.to_uint n)) = (false, chars_of (Nat.to_uint n))).
  { destruct (Nat.to_uint n); reflexivity. }
  rewrite Hs. cbn [take_sign].
  destruct (match chars_of (Nat.to_uint n) with
            | "0"%char :: "x"%char :: r | "0"%char :: "X"%char :: r => (16%nat, r)
            | _ => (10%nat, chars_of (Nat.to_uint n))
            end) as [radix s2].
  destruct (take_digits radix s2) as [[| d ds] rest]; [discriminate |].
  unfold signed. intros [= ->]. reflexivity.
Qed.

Lemma string_to_integer_negative n :
  string_to_integer ("-" ++ numeral n) = Fin (- Z.of_nat n).
Proof.
  set (u := Nat.to_uint n).
  assert (Hu : u <> Decimal.Nil) by apply to_uint_not_nil.
  unfold numeral, string_to_integer. fold u.
  change (list_ascii_of_string ("-" ++ ?s)) with ("-"%char :: list_ascii_of_string s).
  fold (chars_of u).
  assert (Ht : trim_ws ("-"%char :: chars_of u) = "-"%char :: chars_of u).
  { unfold trim_ws.
    rewrite (skip_ws_id ("-"%char :: _)) by (constructor; [reflexivity | apply chars_not_ws]).
    rewrite skip_ws_id
      by (apply List.Forall_rev; constructor; [reflexivity | apply chars_not_ws]).
    apply rev_involutive. }
  rewrite Ht. cbn [prefixed_literal take_sign].
  assert (Hi : String.eqb (string_of_list_ascii (chars_of u)) "Infinity" = false).
  { destruct u; reflexivity. }
  assert (Hd : decimal_literal (chars_of u) = Some (Z.of_nat (Nat.of_uint u))).
  { unfold decimal_literal. rewrite take_digits_chars. rewrite app_nil_r.
    destruct (uint_digits u) as [| d ds] eqn:E; [destruct u; [contradiction | discriminate ..] |].
    rewrite <- E, digits_value_uint. simpl. f_equal. lia. }
  rewrite Hi, Hd. unfold u. now rewrite DecimalNat.Unsigned.of_to.
Qed.

Lemma apply_limit_negative (k : nat) (l : list JSValue) :
  (0 < k)%nat -> apply_limit (Some (- Z.of_nat k)) l = firstn k l.
Proof.
  intros Hk. unfold apply_limit.
  destruct (Z.eqb_spec (- Z.of_nat k) 0) as [E | _]; [lia |].
  f_equal. lia.
Qed.

(** A negative [limit] is read in two ways.  With [limit=-k], [k] positive,
    a read of the action hub that is served from the cache returns the [k]
    newest matching organizations (the driver takes the absolute value),
    while a read that finds nothing and refreshes returns the fetched list
    without its last [k] records ([slice(0, -k)]). *)
Theorem negative_limit_two_readings
    (env : Env) (req : Request) (w : World) (k : nat) :
  (0 < k)%nat ->
  query req !! "limit" = Some ("-" ++ numeral k) ->
  storage_ok env (ticks w) (OpFind "ngos" (Some (- Z.of_nat k))) = true ->
  let matching :=
    sort_desc (filter (fun d => matches env "ngos" (action_hub_query req) d = true)
                 (coll w "ngos")) in
  (matching <> [] ->
   get_api_action_hub env req w
   = (Ret (response 200 (JArr (firstn k matching))), record (EvFind "ngos") w))
  /\ (forall docs w',
        matching = [] ->
        refreshNGOData env (record (EvFind "ngos") w) = (Ret docs, w') ->
        get_api_action_hub env req w
        = (Ret (response 200 (JArr (firstn (length docs - k) docs))), w')).
Proof.
  intros Hk Hlim Hok matching.
  assert (Hfind : find env "ngos" (action_hub_query req) (Some (- Z.of_nat k)) w
                  = (Ret (firstn k matching), record (EvFind "ngos") w)).
  { unfold find. rewrite Hok, (cached_indexed "ngos" _ (or_intror eq_refl)). cbn [andb].
    fold matching. now rewrite apply_limit_negative. }
  unfold get_api_action_hub, try_catch, mbind, eff_bind, query_limit. cbv zeta.
  rewrite Hlim. cbn [parseInt_limit slice_end].
  rewrite parseInt_negative, string_to_integer_negative, Hfind.
  split.
  - intros Hne. destruct matching as [| d r]; [contradiction |].
    destruct k as [| k']; [lia |]. reflexivity.
  - intros docs w' Hnil Hrun. rewrite Hnil, firstn_nil. simpl.
    rewrite Hrun. simpl. now rewrite slice0_negative.
Qed.

Lemma negative_limit_two_readings_witness :
  let env := sample_env (upstream two_talks five_orgs) in
  let req := request [("limit", "-2")] (JObj []) [] in
  let r := refreshNGOData env (record (EvFind "ngos") empty_world) in
  length (returned r) = 5%nat
  /\ get_api_action_hub env req empty_world
     = (Ret (response 200 (JArr (firstn 3 (returned r)))), snd r)
  /\ get_api_action_hub env req busy_world
     = (Ret (response 200 (JArr (coll busy_world "ngos"))), record (EvFind "ngos") busy_world).
Proof.
  intros env req r. split; [vm_compute; reflexivity |].
  split.
  - apply (proj2 (negative_limit_two_readings env req empty_world 2
                    ltac:(lia) eq_refl eq_refl) (returned r) (snd r));
      vm_compute; reflexivity.
  - apply (proj1 (negative_limit_two_readings env req busy_world 2
                    ltac:(lia) eq_refl eq_refl)).
    vm_compute. discriminate.
Defined.

(** ** The auth store *)

Lemma js_or_again a d : js_or (js_or a d) d = js_or a d.
Proof. unfold js_or. destruct (truthy a) eqn:E; [now rewrite E | now destruct (truthy d)]. Qed.

Lemma js_or_default a d : truthy (js_or a d) = true \/ js_or a d = d.
Proof. unfold js_or. destruct (truthy a) eqn:E; [now left | now right]. Qed.

Lemma js_get_prop_defined (v : JSValue) :
  v <> JUndefined -> v <> JNull -> forall k, js_get v k = Ret (prop v k).
Proof. intros Hu Hn k. destruct v; try reflexivity; contradiction. Qed.

Lemma loginSuccess_user_ok state payload state' :
  authSlice.loginSuccess state payload = Ret state' -> user_ok (authSlice.user state').
Proof.
  unfold authSlice.loginSuccess, mbind, outcome_bind.
  destruct (js_get payload "uid") as [uid | e] eqn:Euid; [| discriminate].
  assert (Hget : forall k, js_get payload k = Ret (prop payload k)).
  { apply js_get_prop_defined; intros ->; discriminate. }
  rewrite !Hget. intros [= <-]. right. eexists. split; [reflexivity |].
  split; [reflexivity |]. cbn [authSlice.user prop lookup_prop].
  repeat split; apply js_or_default.
Qed.

Lemma dispatch_user_ok state a :
  user_ok (authSlice.user state) -> is_setUser a = false ->
  user_ok (authSlice.user (authStore.dispatch state a)).
Proof.
  intros Hok Ha. unfold authStore.dispatch.
  destruct a; try discriminate; simpl; try exact Hok; try now left.
  destruct (authSlice.loginSuccess state payload) as [state' | e] eqn:E; [| exact Hok].
  eapply loginSuccess_user_ok. exact E.
Qed.

(** As long as [setUser] is not dispatched, [state.user] is [null] or an
    object with exactly the five user fields, whose [displayName] and
    [photoURL] are truthy or [''] and whose [emailVerified] is truthy or
    [false]: whatever the payloads, also those on which [loginSuccess]
    throws. *)
Theorem store_user_invariant (state : authSlice.AuthState) (acts : list authStore.Action) :
  user_ok (authSlice.user state) ->
  forallb (fun a => negb (is_setUser a)) acts = true ->
  user_ok (authSlice.user (dispatch_all state acts)).
Proof.
  revert state. induction acts as [| a acts IH]; intros state Hok Hacts; [exact Hok |].
  simpl in Hacts. apply andb_prop in Hacts as [Ha Hacts].
  apply IH; [| exact Hacts]. apply dispatch_user_ok; [exact Hok |].
  now destruct (is_setUser a).
Qed.

Lemma store_user_invariant_witness :
  user_ok (authSlice.user
             (dispatch_all authSlice.initialState
                [authStore.loginStart;
                 authStore.loginSuccess (JObj [("uid", JStr "u1"); ("token", JStr "t")]);
                 authStore.loginSuccess JUndefined;
                 authStore.loginFailure (JStr "denied")])).
Proof.
  apply (store_user_invariant authSlice.initialState); [now left | reflexivity].
Defined.

(** A login attempt that does not succeed never changes who is signed in:
    after any sequence of [loginStart], [loginFailure] and actions of other
    slices, [state.user] is what it was. *)
Theorem failed_attempts_keep_user (state : authSlice.AuthState) (acts : list authStore.Action) :
  forallb is_attempt acts = true ->
  authSlice.user (dispatch_all state acts) = authSlice.user state.
Proof.
  revert state. induction acts as [| a acts IH]; intros state Hacts; [reflexivity |].
  simpl in Hacts. apply andb_prop in Hacts as [Ha Hacts].
  change (dispatch_all state (a :: acts)) with (dispatch_all (authStore.dispatch state a) acts).
  rewrite (IH _ Hacts). destruct a; try discriminate; reflexivity.
Qed.

Lemma failed_attempts_keep_user_witness :
  let signed_in :=
    authStore.dispatch authSlice.initialState
      (authStore.loginSuccess (JObj [("uid", JStr "u1")])) in
  authSlice.user signed_in <> JNull
  /\ authSlice.user
       (dispatch_all signed_in
          [authStore.loginStart; authStore.loginFailure (JStr "wrong password")])
     = authSlice.user signed_in.
Proof.
  intros signed_in. split; [discriminate |].
  apply (failed_attempts_keep_user signed_in). reflexivity.
Defined.

(** The listener registered with [auth.onAuthStateChanged] never throws.
    With no user (sign-out) it dispatches nothing and the store keeps the
    user it had; with a user, the store holds the five fields read off it,
    the defaults applied by the listener and again by the reducer
    amounting to applying them once. *)
Theorem auth_listener (state : authSlice.AuthState) (u : JSValue) :
  exists state',
    authStore.onAuthStateChanged state u = Ret state'
    /\ (truthy u = false -> state' = state)
    /\ (truthy u = true ->
        authSlice.user state'
        = JObj [("uid", prop u "uid"); ("email", prop u "email");
                ("displayName", js_or (prop u "displayName") (JStr ""));
                ("photoURL", js_or (prop u "photoURL") (JStr ""));
                ("emailVerified", js_or (prop u "emailVerified") (JBool false))]
        /\ authSlice.loading state' = false
        /\ authSlice.error state' = JNull).
Proof.
  unfold authStore.onAuthStateChanged. destruct (truthy u) eqn:Hu.
  - assert (Hget : forall k, js_get u k = Ret (prop u k)).
    { apply js_get_prop_defined; intros ->; discriminate. }
    unfold mbind, outcome_bind. rewrite !Hget.
    eexists. split; [reflexivity |]. split; [discriminate |]. intros _.
    cbn [authSlice.user authSlice.loading authSlice.error lookup_prop String.eqb Ascii.eqb
         Bool.eqb].
    now rewrite !js_or_again.
  - exists state. split; [reflexivity |]. split; [reflexivity | discriminate].
Qed.

Lemma auth_listener_witness :
  let signed_in :=
    authStore.dispatch authSlice.initialState
      (authStore.loginSuccess (JObj [("uid", JStr "u1")])) in
  authSlice.user signed_in <> JNull
  /\ authStore.onAuthStateChanged signed_in JNull = Ret signed_in.
Proof.
  intros signed_in. split; [discriminate |].
  destruct (auth_listener signed_in JNull) as (state' & Hrun & Hout & _).
  rewrite Hrun. f_equal. now apply Hout.
Defined.
